(** * nmos-cpp: DNS-SD helpers, System API handlers and node start-up

    A shallow embedding of
      - Development/nmos/mdns.cpp           (TXT records, register_service, resolve_service)
      - Development/nmos/system_api.cpp     (GET and PUT of the system global resource)
      - Development/nmos-cpp-node/main.cpp  (settings, port defaults, exit code)
      - Development/nmos/test/event_type_test.cpp (the event type matching cases)
    followed by the properties proved about them. *)

From Stdlib Require Import ZArith NArith List String Ascii Bool Lia.
From Stdlib Require Import Permutation Sorted.
Import ListNotations.

Local Open Scope string_scope.
Local Open Scope Z_scope.

(** ** Character streams: [std::ostringstream << n] and [std::istringstream >> n] *)

Module Stream.

Definition digit_char (d : N) : ascii := ascii_of_N (48 + d).

Definition digit_val (c : ascii) : option N :=
  let n := N_of_ascii c in
  if ((48 <=? n) && (n <=? 57))%N then Some (n - 48)%N else None.

Definition is_digit (c : ascii) : bool :=
  match digit_val c with Some _ => true | None => false end.

(** Decimal digits of [n], most significant first, written in front of
    [tail]; [fuel] bounds the number of digits. *)
Fixpoint put_digits (fuel : nat) (n : N) (tail : string) : string :=
  match fuel with
  | O => tail
  | S fuel' =>
      let tail' := String (digit_char (n mod 10)) tail in
      if (n <? 10)%N then tail' else put_digits fuel' (n / 10) tail'
  end.

(** [os << n] for an unsigned value. *)
Definition put_N (n : N) : string :=
  put_digits (S (N.to_nat (N.size n))) n "".

(** [os << z] for a signed value. *)
Definition put_Z (z : Z) : string :=
  if z <? 0 then String "-" (put_N (Z.abs_N z)) else put_N (Z.to_N z).

(** The longest run of digits at the front of [s], accumulated in base
    ten, and what follows it. *)
Fixpoint get_digits (s : string) (acc : N) : N * string :=
  match s with
  | String c s' =>
      match digit_val c with
      | Some d => get_digits s' (acc * 10 + d)%N
      | None => (acc, s)
      end
  | EmptyString => (acc, s)
  end.

Definition starts_with_digit (s : string) : bool :=
  match s with
  | String c _ => is_digit c
  | EmptyString => false
  end.

(** An unsigned number at the front of [s]; [None] when [s] does not
    start with a digit. *)
Definition get_N (s : string) : option (N * string) :=
  if starts_with_digit s then Some (get_digits s 0%N) else None.

(** [std::isspace] in the classic locale. *)
Definition is_space (c : ascii) : bool :=
  let n := N_of_ascii c in
  ((n =? 32) || ((9 <=? n) && (n <=? 13)))%N.

Fixpoint skip_ws (s : string) : string :=
  match s with
  | String c s' => if is_space c then skip_ws s' else s
  | EmptyString => s
  end.

Definition int_max : Z := 2147483647.
Definition int_min : Z := -2147483648.

Definition clamp_int (z : Z) : Z :=
  if z <? int_min then int_min else if int_max <? z then int_max else z.

(** [T result{ init }; std::istringstream is(value); is >> result; return result;]
    for [T = int].  Leading white space is skipped; at the end of the
    input the extraction does not start and [result] keeps [init]; when no
    digit follows the optional sign, zero is stored; a value that does
    not fit is stored as the nearest limit. *)
Definition get_int (value : string) (init : Z) : Z :=
  match skip_ws value with
  | EmptyString => init
  | String c s' =>
      let '(negative, body) :=
        if Ascii.eqb c "-" then (true, s')
        else if Ascii.eqb c "+" then (false, s')
        else (false, String c s') in
      match get_N body with
      | None => 0
      | Some (n, _) =>
          clamp_int (if negative : bool then - Z.of_N n else Z.of_N n)
      end
  end.

(** [boost::algorithm::join]. *)
Fixpoint join (sep : string) (l : list string) : string :=
  match l with
  | [] => ""
  | x :: l' =>
      match l' with
      | [] => x
      | _ :: _ => x ++ sep ++ join sep l'
      end
  end.

(** [boost::algorithm::split] with a character predicate and no token
    compression: the token in progress and the tokens after it. *)
Fixpoint split_aux (is_sep : ascii -> bool) (s : string) : string * list string :=
  match s with
  | EmptyString => ("", [])
  | String c s' =>
      let (tok, toks) := split_aux is_sep s' in
      if is_sep c then ("", tok :: toks) else (String c tok, toks)
  end.

Definition split (is_sep : ascii -> bool) (s : string) : list string :=
  let (tok, toks) := split_aux is_sep s in tok :: toks.

(** [boost::algorithm::replace_all_copy] for one-character patterns. *)
Fixpoint replace_char (from to : ascii) (s : string) : string :=
  match s with
  | EmptyString => EmptyString
  | String c s' =>
      String (if Ascii.eqb c from then to else c) (replace_char from to s')
  end.

(** Every character of [s] satisfies [p]. *)
Fixpoint all_chars (p : ascii -> bool) (s : string) : bool :=
match s with
| EmptyString => true
| String c s' => p c && all_chars p s'
end.

Fixpoint ends_with (suffix s : string) : bool :=
  String.eqb suffix s ||
  match s with
  | EmptyString => false
  | String _ s' => ends_with suffix s'
  end.

End Stream.

(** ** nmos/api_version.h and [std::set<api_version>] *)

Module ApiVersion.
Import Stream.

(** Modelled from the spec: nmos/api_version.h is not among the sources.
    An API version is a pair of unsigned numbers written [v<major>.<minor>]
    ("e.g. v1.0,v1.2,v1.3"), ordered by major, then minor ("higher api_ver
    first"). *)
Record api_version : Type := mk_api_version { major : N; minor : N }.

Definition eqb (a b : api_version) : bool :=
  ((major a =? major b) && (minor a =? minor b))%N.

Definition ltb (a b : api_version) : bool :=
  ((major a <? major b) || ((major a =? major b) && (minor a <? minor b)))%N.

(** Modelled from the spec: [make_api_version] lives in the absent
    nmos/api_version.h; it writes [v<major>.<minor>]. *)
Definition make_api_version (v : api_version) : string :=
  String "v" (put_N (major v) ++ String "." (put_N (minor v))).

(** Modelled from the spec: [parse_api_version] lives in the absent
    nmos/api_version.h; it reads [v<major>.<minor>] and gives the zero
    version for anything else. *)
Definition parse_api_version (s : string) : api_version :=
  match s with
  | String "v" r =>
      match get_N r with
      | Some (ma, String "." r') =>
          match get_N r' with
          | Some (mi, EmptyString) => mk_api_version ma mi
          | _ => mk_api_version 0 0
          end
      | _ => mk_api_version 0 0
      end
  | _ => mk_api_version 0 0
  end.

(** [std::set<api_version>]: the elements in strictly ascending order. *)
Definition version_set : Type := list api_version.

(** A version set as [std::set] keeps it: strictly ascending. *)
Definition ascending (s : version_set) : Prop :=
StronglySorted (fun a b => ltb a b = true) s.

Fixpoint set_insert (v : api_version) (s : version_set) : version_set :=
  match s with
  | [] => [v]
  | x :: s' =>
      if ltb v x then v :: s
      else if ltb x v then x :: set_insert v s'
      else s
  end.

(** [boost::copy_range<std::set<api_version>>]: the range inserted
    element by element. *)
Definition set_of_range (l : list api_version) : version_set :=
  fold_left (fun s v => set_insert v s) l [].

Definition set_mem (v : api_version) (s : version_set) : bool :=
  existsb (eqb v) s.

(** [std::find_first_of(first, last, s_first, s_last)]: the first element
    of the range that equals some element of the second range. *)
Definition find_first_of (range among : list api_version) : option api_version :=
  find (fun v => existsb (eqb v) among) range.

Definition v1_0 : api_version := mk_api_version 1 0.
Definition v1_1 : api_version := mk_api_version 1 1.
Definition v1_2 : api_version := mk_api_version 1 2.
Definition v1_3 : api_version := mk_api_version 1 3.

End ApiVersion.

(** ** The mdns library interface used by nmos/mdns.cpp *)

Module Mdns.
Import Stream.

Definition structured_txt_record : Type := string * string.
Definition structured_txt_records : Type := list structured_txt_record.
Definition txt_records : Type := list string.

(** Modelled from the spec: [mdns::parse_txt_record] lives in the absent
    mdns library; "find and parse the ... TXT record (or return the
    default)": the first record with the key is parsed. *)
Definition parse_txt_record {T : Type} (records : structured_txt_records)
    (key : string) (parse : string -> T) (default_value : T) : T :=
  match find (fun r => String.eqb (fst r) key) records with
  | Some r => parse (snd r)
  | None => default_value
  end.

(** Modelled from the spec: [mdns::make_txt_records] lives in the absent
    mdns library; a DNS-SD TXT record is the string [key=value]. *)
Definition make_txt_records (records : structured_txt_records) : txt_records :=
  map (fun r => fst r ++ String "=" (snd r)) records.

Fixpoint cut_at_equals (s : string) : string * string :=
  match s with
  | EmptyString => ("", "")
  | String c s' =>
      if Ascii.eqb c "=" then ("", s')
      else let (k, v) := cut_at_equals s' in (String c k, v)
  end.

(** Modelled from the spec: [mdns::parse_txt_records] lives in the absent
    mdns library; "Parse TXT into structured records": each record is cut
    at its first [=]. *)
Definition parse_txt_records (records : txt_records) : structured_txt_records :=
  map cut_at_equals records.

Record browse_result : Type := mk_browse_result {
  name : string;
  type : string;
  browse_domain : string;
  interface_id : Z
}.

Record resolve_result : Type := mk_resolve_result {
  host_name : string;
  port : Z;
  resolved_txt_records : txt_records;
  ip_addresses : list string
}.

(** [mdns::service_discovery]: the results its [browse] and [resolve]
    operations deliver to their handlers, in order, before the operation
    ends (by its timeout, by cancellation, or because nothing more is
    coming). *)
Record service_discovery : Type := mk_service_discovery {
  browse : string -> string -> list browse_result;
  resolve : browse_result -> list resolve_result
}.

(** [mdns::service_advertiser]: the calls it has received, oldest first. *)
Inductive advertiser_call : Type :=
| register_address (host_name address domain : string)
| register_service (name type : string) (port : Z) (domain host_name : string)
    (txt : txt_records)
| update_record (name type domain : string) (txt : txt_records).

Definition service_advertiser : Type := list advertiser_call.

End Mdns.

(** ** [web::uri] as built by [web::uri_builder] *)

Module Uri.
Import Stream.

Record uri : Type := mk_uri {
  scheme : string;
  host : string;
  port : Z;
  path : string
}.

Definition to_string (u : uri) : string :=
  scheme u ++ "://" ++ host u ++ ":" ++ put_Z (port u) ++ path u.

End Uri.

(** ** Development/nmos/mdns.cpp *)

Module Nmos.
Import Stream ApiVersion.

Module txt_record_keys.
Definition api_proto : string := "api_proto".
Definition api_ver : string := "api_ver".
Definition pri : string := "pri".
Definition ver_slf : string := "ver_slf".
Definition ver_src : string := "ver_src".
Definition ver_flw : string := "ver_flw".
Definition ver_dvc : string := "ver_dvc".
Definition ver_snd : string := "ver_snd".
Definition ver_rcv : string := "ver_rcv".
End txt_record_keys.

(** Modelled from the spec: the service type names are declared in the
    absent nmos/mdns.h; "Service types advertised: _nmos-node._tcp,
    _nmos-register._tcp (v1.3+), _nmos-registration._tcp (<=v1.2),
    _nmos-query._tcp", where [registration] is the one that
    [register_service] advertises next to the literal _nmos-register._tcp. *)
Module service_types.
Definition node : string := "_nmos-node._tcp".
Definition query : string := "_nmos-query._tcp".
Definition registration : string := "_nmos-registration._tcp".
End service_types.

(** Modelled from the spec: declared in the absent nmos/mdns.h;
    "api_proto: http or https (lowercase)". *)
Module service_protocols.
Definition http : string := "http".
Definition https : string := "https".
End service_protocols.

Definition service_type : Type := string.
Definition service_protocol : Type := string.
Definition service_priority : Type := Z.

(** Modelled from the spec: [api_resource_version] is declared in the
    absent nmos/mdns.h; "Per-type change counters: non-negative integer",
    written and read through [int] by the source: an unsigned 8-bit
    value. *)
Definition api_resource_version : Type := Z.
Definition api_resource_version_modulus : Z := 256.

Record api_resource_versions : Type := mk_api_resource_versions {
  self : api_resource_version;
  devices : api_resource_version;
  sources : api_resource_version;
  flows : api_resource_version;
  senders : api_resource_version;
  receivers : api_resource_version
}.

Definition make_api_proto_value (api_proto : service_protocol) : string :=
  api_proto.

Definition parse_api_proto_value (api_proto : string) : service_protocol :=
  api_proto.

Definition parse_api_proto_record (records : Mdns.structured_txt_records)
    : service_protocol :=
  Mdns.parse_txt_record records txt_record_keys.api_proto
    parse_api_proto_value service_protocols.http.

Definition make_api_ver_value (api_ver : version_set) : string :=
  join "," (map make_api_version api_ver).

Definition parse_api_ver_value (api_ver : string) : version_set :=
  let api_vers := split (fun c => Ascii.eqb "," c) api_ver in
  set_of_range (map parse_api_version api_vers).

Definition ostringstreamed (value : Z) : string := put_Z value.

Definition istringstreamed (value : string) (default_value : Z) : Z :=
  get_int value default_value.

Definition make_pri_value (pri : service_priority) : string :=
  ostringstreamed pri.

Definition make_ver_value (ver : api_resource_version) : string :=
  ostringstreamed ver.

Definition parse_ver_value (ver : string) : api_resource_version :=
  (istringstreamed ver 0) mod api_resource_version_modulus.

Definition make_txt_records (service : service_type) (pri : service_priority)
    (api_ver : version_set) (api_proto : service_protocol)
    : Mdns.structured_txt_records :=
  if String.eqb service service_types.node then
    [ (txt_record_keys.api_proto, make_api_proto_value api_proto);
      (txt_record_keys.api_ver, make_api_ver_value api_ver) ]
  else
    [ (txt_record_keys.api_proto, make_api_proto_value api_proto);
      (txt_record_keys.api_ver, make_api_ver_value api_ver);
      (txt_record_keys.pri, make_pri_value pri) ].

Definition parse_ver_records (records : Mdns.structured_txt_records)
    : api_resource_versions :=
  let no_ver := 0 in
  {| self := Mdns.parse_txt_record records txt_record_keys.ver_slf parse_ver_value no_ver;
     sources := Mdns.parse_txt_record records txt_record_keys.ver_src parse_ver_value no_ver;
     flows := Mdns.parse_txt_record records txt_record_keys.ver_flw parse_ver_value no_ver;
     devices := Mdns.parse_txt_record records txt_record_keys.ver_dvc parse_ver_value no_ver;
     senders := Mdns.parse_txt_record records txt_record_keys.ver_snd parse_ver_value no_ver;
     receivers := Mdns.parse_txt_record records txt_record_keys.ver_rcv parse_ver_value no_ver |}.

Definition make_ver_records (ver : api_resource_versions)
    : Mdns.structured_txt_records :=
  [ (txt_record_keys.ver_slf, make_ver_value (self ver));
    (txt_record_keys.ver_src, make_ver_value (sources ver));
    (txt_record_keys.ver_flw, make_ver_value (flows ver));
    (txt_record_keys.ver_dvc, make_ver_value (devices ver));
    (txt_record_keys.ver_snd, make_ver_value (senders ver));
    (txt_record_keys.ver_rcv, make_ver_value (receivers ver)) ].

(** The values that mdns.cpp reads from [nmos::settings] through the
    [nmos::fields] accessors and [is04_versions::from_settings]. *)
Record settings : Type := mk_settings {
  host_name : string;
  domain : string;
  host_address : string;
  host_addresses : option (list string);
  node_port : Z;
  query_port : Z;
  registration_port : Z;
  pri : service_priority;
  is04_versions : version_set
}.

Definition service_port (service : service_type) (s : settings) : Z :=
  if String.eqb service_types.node service then node_port s
  else if String.eqb service_types.query service then query_port s
  else if String.eqb service_types.registration service then registration_port s
  else 0.

Definition service_api (service : service_type) : string :=
  if String.eqb service_types.node service then "node"
  else if String.eqb service_types.query service then "query"
  else if String.eqb service_types.registration service then "registration"
  else "".

Definition service_base_name (service : service_type) : string :=
  "nmos-cpp_" ++ service_api service.

Definition service_name (service : service_type) (s : settings) : string :=
  replace_char "." "-"
    (service_base_name service ++ "_" ++ host_address s ++ ":"
       ++ ostringstreamed (service_port service s)).

(** [register_service]: the advertiser after the calls; [None] where the
    source dereferences [begin()] of an empty version set. *)
Definition register_service (advertiser : Mdns.service_advertiser)
    (service : service_type) (s : settings) : option Mdns.service_advertiser :=
  let host_name := host_name s in
  let domain := domain s in
  let advertiser :=
    if negb (String.eqb host_name "") then
      let host_addresses :=
        match host_addresses s with
        | Some l => l
        | None => [host_address s]
        end in
      (advertiser ++
         map (fun host_address => Mdns.register_address host_name host_address domain)
           host_addresses)%list
    else advertiser in
  let instance_name := service_name service s in
  let instance_port := (service_port service s) mod 65536 in
  let api_ver := is04_versions s in
  (* the api_proto argument is left to its default in the source *)
  let records := make_txt_records service (pri s) api_ver service_protocols.http in
  let txt_records := Mdns.make_txt_records records in
  if String.eqb service_types.registration service then
    match api_ver with
    | [] => None
    | lowest :: _ =>
        let advertiser :=
          if ltb lowest v1_3 then
            (advertiser ++
               [Mdns.register_service instance_name service instance_port
                  domain host_name txt_records])%list
          else advertiser in
        Some (advertiser ++
                [Mdns.register_service instance_name "_nmos-register._tcp"
                   instance_port domain host_name txt_records])%list
    end
  else
    Some (advertiser ++
            [Mdns.register_service instance_name service instance_port
               domain host_name txt_records])%list.

(** The addresses of the [register_address] calls an advertiser
    received, oldest first. *)
Definition registered_addresses (advertiser : Mdns.service_advertiser) : list string :=
  flat_map (fun c =>
    match c with
    | Mdns.register_address _ address _ => [address]
    | _ => []
    end) advertiser.

(** [update_service]: the advertiser after the call. *)
Definition update_service (advertiser : Mdns.service_advertiser)
    (service : service_type) (s : settings)
    (add_records : Mdns.structured_txt_records) : Mdns.service_advertiser :=
  let domain := domain s in
  let instance_name := service_name service s in
  (* the api_proto argument is left to its default in the source *)
  let records :=
    make_txt_records service (pri s) (is04_versions s) service_protocols.http in
  let records := (records ++ add_records)%list in
  let txt_records := Mdns.make_txt_records records in
  (advertiser ++ [Mdns.update_record instance_name service domain txt_records])%list.

(** The service types of the [register_service] calls an advertiser
    received, oldest first. *)
Definition registered_types (advertiser : Mdns.service_advertiser) : list string :=
  flat_map (fun c =>
    match c with
    | Mdns.register_service _ type _ _ _ _ => [type]
    | _ => []
    end) advertiser.

(** [std::stable_sort]: an insertion sort that never moves an element in
    front of one it is not [comp]-less than. *)
Fixpoint stable_insert {A : Type} (comp : A -> A -> bool) (x : A) (l : list A)
    : list A :=
  match l with
  | [] => [x]
  | y :: l' => if comp y x then y :: stable_insert comp x l' else x :: l
  end.

Fixpoint stable_sort {A : Type} (comp : A -> A -> bool) (l : list A) : list A :=
  match l with
  | [] => []
  | x :: l' => stable_insert comp x (stable_sort comp l')
  end.

Definition resolved_service : Type := (api_version * service_priority) * Uri.uri.

(** The comparison passed to [std::stable_sort] in [resolve_service]. *)
Definition resolved_service_less (lhs rhs : resolved_service) : bool :=
  ltb (fst (fst rhs)) (fst (fst lhs))
  || (eqb (fst (fst lhs)) (fst (fst rhs)) && (snd (fst lhs) <? snd (fst rhs))).

(** The comparison of [resolve_service] on the ranks alone: it does not
    look at the URIs. *)
Definition rank_less (lhs rhs : api_version * service_priority) : bool :=
  ltb (fst rhs) (fst lhs) || (eqb (fst lhs) (fst rhs) && (snd lhs <? snd rhs)).

(** Two elements that [comp] does not order. *)
Definition equivalent {A : Type} (comp : A -> A -> bool) (a b : A) : bool :=
  negb (comp a b) && negb (comp b a).

(** Every counter is a value of the 8-bit type. *)
Definition valid_versions (ver : api_resource_versions) : Prop :=
  0 <= self ver < api_resource_version_modulus
  /\ 0 <= devices ver < api_resource_version_modulus
  /\ 0 <= sources ver < api_resource_version_modulus
  /\ 0 <= flows ver < api_resource_version_modulus
  /\ 0 <= senders ver < api_resource_version_modulus
  /\ 0 <= receivers ver < api_resource_version_modulus.

(** A discovery of the given service instances: each is browsed under
    its host name and resolved by it. *)
Definition discovery_of (instances : list Mdns.resolve_result) : Mdns.service_discovery :=
  Mdns.mk_service_discovery
    (fun type domain =>
       map (fun i => Mdns.mk_browse_result (Mdns.host_name i) type domain 0) instances)
    (fun resolving =>
       filter (fun i => String.eqb (Mdns.host_name i) (Mdns.name resolving)) instances).

(** The ranking in the words of the specification: the higher api_ver
    first and, for the same api_ver, the lower pri first. *)
Definition ranks_before (a b : resolved_service) : Prop :=
  ltb (fst (fst b)) (fst (fst a)) = true
  \/ (fst (fst a) = fst (fst b) /\ snd (fst a) <= snd (fst b)).

(** Two results with the same api_ver and the same pri. *)
Definition same_rank (a b : resolved_service) : bool :=
  eqb (fst (fst a)) (fst (fst b)) && (snd (fst a) =? snd (fst b)).

Section Constants.

(** [service_priorities::no_priority] and [is04_versions::unspecified],
    both declared in the absent nmos/mdns.h. *)
Variable no_priority : service_priority.
Variable unspecified : version_set.

Definition parse_api_ver_record (records : Mdns.structured_txt_records)
    : version_set :=
  Mdns.parse_txt_record records txt_record_keys.api_ver
    parse_api_ver_value unspecified.

Definition parse_pri_value (pri : string) : service_priority :=
  istringstreamed pri no_priority.

Definition parse_pri_record (records : Mdns.structured_txt_records)
    : service_priority :=
  Mdns.parse_txt_record records txt_record_keys.pri parse_pri_value no_priority.

(** The handler given to [discovery.resolve]: [results] after one
    resolve result.  (The handler always answers [true].) *)
Definition resolve_handler (service : service_type) (api_ver : version_set)
    (priorities : service_priority * service_priority)
    (resolved : Mdns.resolve_result) (results : list resolved_service)
    : list resolved_service :=
  let records := Mdns.parse_txt_records (Mdns.resolved_txt_records resolved) in
  let resolved_pri := parse_pri_record records in
  if negb (String.eqb service service_types.node)
     && ((resolved_pri <? fst priorities) || (snd priorities <? resolved_pri))
  then results
  else
    let resolved_proto := parse_api_proto_record records in
    if negb (String.eqb service_protocols.http resolved_proto) then results
    else
      let resolved_vers := parse_api_ver_record records in
      match find_first_of (rev resolved_vers) (rev api_ver) with
      | None => results
      | Some resolved_ver =>
          (results ++
             map (fun ip_address =>
                    ((resolved_ver, resolved_pri),
                     Uri.mk_uri resolved_proto ip_address (Mdns.port resolved)
                       ("/x-nmos/" ++ service_api service ++ "/"
                          ++ make_api_version resolved_ver)%string))
               (Mdns.ip_addresses resolved))%list
      end.

(** The handler given to [discovery.browse]: [results] after the
    resolve results of one browse result.  (The handler answers
    [!results->empty()].) *)
Definition browse_handler (discovery : Mdns.service_discovery)
    (service : service_type) (api_ver : version_set)
    (priorities : service_priority * service_priority)
    (resolving : Mdns.browse_result) (results : list resolved_service)
    : list resolved_service :=
  fold_left (fun results resolved =>
               resolve_handler service api_ver priorities resolved results)
    (Mdns.resolve discovery resolving) results.

(** The continuation of the browse: rank what was collected. *)
Definition rank_results (randomize : bool)
    (shuffle : list resolved_service -> list resolved_service)
    (results : list resolved_service) : list Uri.uri :=
  let results := if randomize then shuffle results else results in
  map snd (stable_sort resolved_service_less results).

(** What the browse leaves in [results] when it ends. *)
Definition browse_results (discovery : Mdns.service_discovery)
    (service : service_type) (browse_domain : string) (api_ver : version_set)
    (priorities : service_priority * service_priority)
    : list resolved_service :=
  fold_left (fun results resolving =>
               browse_handler discovery service api_ver priorities resolving results)
    (Mdns.browse discovery service browse_domain) [].

(** [resolve_service]; [shuffle] is the permutation that [std::shuffle]
    applies with the seeded engine. *)
Definition resolve_service (discovery : Mdns.service_discovery)
    (service : service_type) (browse_domain : string) (api_ver : version_set)
    (priorities : service_priority * service_priority) (randomize : bool)
    (shuffle : list resolved_service -> list resolved_service)
    : list Uri.uri :=
  rank_results randomize shuffle
    (browse_results discovery service browse_domain api_ver priorities).

(** The rejection rule in the words of the specification: the protocol
    is not http, or no advertised version is one the caller requires, or
    (for a service other than the node's) the priority is outside the
    inclusive band. *)
Definition rejected (service : service_type) (api_ver : version_set)
    (priorities : service_priority * service_priority)
    (resolved : Mdns.resolve_result) : bool :=
  let records := Mdns.parse_txt_records (Mdns.resolved_txt_records resolved) in
  negb (String.eqb (parse_api_proto_record records) service_protocols.http)
  || negb (existsb (fun v => set_mem v api_ver) (parse_api_ver_record records))
  || (negb (String.eqb service service_types.node)
      && negb ((fst priorities <=? parse_pri_record records)
               && (parse_pri_record records <=? snd priorities))).

(** A discovery that never delivers a rejected candidate. *)
Definition without_rejected (service : service_type) (api_ver : version_set)
    (priorities : service_priority * service_priority)
    (discovery : Mdns.service_discovery) : Mdns.service_discovery :=
  Mdns.mk_service_discovery (Mdns.browse discovery)
    (fun resolving =>
       filter (fun resolved => negb (rejected service api_ver priorities resolved))
         (Mdns.resolve discovery resolving)).

End Constants.

End Nmos.

(** ** nmos/event_type.h, as exercised by nmos/test/event_type_test.cpp *)

Module EventType.
Import Stream.

(** Modelled from the spec: nmos/event_type.h is not among the sources
    (only its test is).  An event type is a hierarchical tag
    [base/sub/sub-unit]; a subscriber may end with the wildcard component
    [*], which stands for one component of the event type, every
    component named before it being required as it is
    ("exact-prefix-plus-unit rule"). *)
Definition event_type : Type := string.

Definition boolean : event_type := "boolean".
Definition number : event_type := "number".
Definition wildcard : string := "*".

(** Modelled from the spec: [event_types::measurement] builds
    [base/name] and, with a unit, [base/name/unit]. *)
Definition measurement (base : event_type) (name : string) (unit : string)
    : event_type :=
  if String.eqb unit "" then base ++ "/" ++ name
  else base ++ "/" ++ name ++ "/" ++ unit.

Definition components (t : event_type) : list string :=
  split (fun c => Ascii.eqb c "/") t.

Fixpoint match_components (capability type : list string) : bool :=
  match capability, type with
  | [], [] => true
  | [c], [t] => String.eqb c wildcard || String.eqb c t
  | c :: cs, t :: ts => String.eqb c t && match_components cs ts
  | _, _ => false
  end.

(** Modelled from the spec: [is_matching_event_type] of the absent
    nmos/event_type.h, subscriber (capability) first. *)
Definition is_matching_event_type (capability type : event_type) : bool :=
  match_components (components capability) (components type).

(** The tail component of a subscriber is the wildcard. *)
Definition has_wildcard_tail (capability : event_type) : bool :=
  String.eqb (last (components capability) "") wildcard.

End EventType.

(** ** [web::json::value] and the helpers of cpprest/json_utils.h *)

Module Json.

(** A JSON value.  [number] carries an integer; a number with a fraction
    is not modelled. *)
#[warnings="-register-all"]
Inductive value : Type :=
| null
| boolean (b : bool)
| number (n : Z)
| string_ (s : string)
| array (elements : list value)
| object (fields : list (string * value)).

Definition is_null (v : value) : bool :=
  match v with null => true | _ => false end.

Definition is_object (v : value) : bool :=
  match v with object _ => true | _ => false end.

Definition is_number (v : value) : bool :=
  match v with number _ => true | _ => false end.

Fixpoint assoc (key : string) (fields : list (string * value)) : option value :=
  match fields with
  | [] => None
  | (k, v) :: fields' => if String.eqb k key then Some v else assoc key fields'
  end.

(** The field [key] of an object; nothing for any other value. *)
Definition field (v : value) (key : string) : option value :=
  match v with
  | object fields => assoc key fields
  | _ => None
  end.

Definition has_field (v : value) (key : string) : bool :=
  match field v key with Some _ => true | None => false end.

(** Modelled from the spec: [web::json::insert] lives in the absent
    cpprest/json_utils.h; it adds the field when it "was omitted" and
    leaves a field that is present as it is; a null value becomes an
    object.  (main.cpp applies it to a null or object value only.) *)
Definition insert (v : value) (key : string) (x : value) : value :=
  match v with
  | null => object [(key, x)]
  | object fields =>
      match assoc key fields with
      | Some _ => v
      | None => object (fields ++ [(key, x)])%list
      end
  | _ => v
  end.

End Json.

(** ** Exceptions *)

Module Exn.

Inductive exception : Type :=
| json_exception
| http_exception
| system_error
| runtime_error
| std_exception
| unknown_exception.

Inductive outcome (A : Type) : Type :=
| Returned (a : A)
| Thrown (e : exception).

Arguments Returned {A} a.
Arguments Thrown {A} e.

Definition bind {A B : Type} (m : outcome A) (k : A -> outcome B) : outcome B :=
  match m with
  | Returned a => k a
  | Thrown e => Thrown e
  end.

Inductive severity : Type := info | warning | error | severe.

Definition log_entry : Type := severity * string.

End Exn.

Notation "x <- m ;; k" := (Exn.bind m (fun x => k))
(at level 61, m at next level, right associativity).

(** ** Development/nmos/system_api.cpp: the handlers of [/global] *)

Module SystemApi.
Import ApiVersion Exn.

Module status_codes.
Definition OK : Z := 200.
Definition Created : Z := 201.
Definition BadRequest : Z := 400.
Definition NotFound : Z := 404.
Definition InternalError : Z := 500.
End status_codes.

Inductive resource_type : Type := global | other_type (name : string).

(** Modelled from the spec: [nmos::resource] lives in the absent
    nmos/resource.h.  The record keeps the four values the handler of PUT
    gives to its construction (system_api.cpp:112): the API version, the
    type, the data and the never-expire flag.  The identifier, the
    creation and update versions and the health stamp that the resource
    also carries are set by the absent constructor and are not modelled,
    so two resources equal here may differ in those. *)
Record resource : Type := mk_resource {
  version : api_version;
  type : resource_type;
  data : Json.value;
  never_expire : bool
}.

(** Modelled from the spec: [resource::has_data] lives in the absent
    nmos/resource.h; the resource is "configured" when it carries a JSON
    payload, that is, when its data is not null. *)
Definition has_data (r : resource) : bool := negb (Json.is_null (data r)).

Record registry_model : Type := mk_registry_model {
  settings : Json.value;
  system_global_resource : resource
}.

Record http_response : Type := mk_http_response {
  status_code : Z;
  body : option Json.value
}.

(** Modelled from the spec: [nmos::fields::allow_invalid_resources] is
    declared in the absent nmos/settings.h; a boolean setting that is off
    unless "set"; a value of another type raises [json_exception]. *)
Definition allow_invalid_resources (settings : Json.value) : outcome bool :=
  match Json.field settings "allow_invalid_resources" with
  | None => Returned false
  | Some (Json.boolean b) => Returned b
  | Some _ => Thrown json_exception
  end.

(** GET /global: the reply and what is logged. *)
Definition get_global (model : registry_model) : http_response * list log_entry :=
  if has_data (system_global_resource model) then
    (mk_http_response status_codes.OK (Some (data (system_global_resource model))), [])
  else
    (mk_http_response status_codes.InternalError None,
     [(error, "System global resource not configured!")]).

(** PUT /global with the request body [body] and the route parameter
    [version]: the model afterwards, what is logged, and the reply or the
    exception that leaves the handler.  [validate v b] tells whether
    [validator.validate(b, make_systemapi_global_schema_uri(v))] returns
    (it throws [json_exception] otherwise). *)
Definition put_global (validate : api_version -> Json.value -> bool)
    (model : registry_model) (version : string) (body : Json.value)
    : registry_model * list log_entry * outcome http_response :=
  let version := parse_api_version version in
  match allow_invalid_resources (settings model) with
  | Thrown e => (model, [], Thrown e)
  | Returned allow_invalid_resources =>
      let stored :=
        mk_registry_model (settings model)
          (mk_resource (mk_api_version 1 0) global body true) in
      let reply := mk_http_response status_codes.Created (Some body) in
      if negb allow_invalid_resources then
        if validate version body then (stored, [], Returned reply)
        else (model, [], Thrown json_exception)
      else
        if validate version body then (stored, [], Returned reply)
        else (stored, [(warning, "JSON error: ")], Returned reply)
  end.

End SystemApi.

(** ** Development/nmos-cpp-node/main.cpp *)

Module NodeMain.
Import Exn.

(** Modelled from the spec: the setting names are declared in the absent
    nmos/settings.h; they are the configuration fields of the same
    names. *)
Module fields.
Definition seed_id : string := "seed_id".
Definition logging_level : string := "logging_level".
Definition host_addresses : string := "host_addresses".
Definition host_address : string := "host_address".
Definition http_port : string := "http_port".
Definition registration_port : string := "registration_port".
Definition node_port : string := "node_port".
Definition connection_port : string := "connection_port".
Definition events_port : string := "events_port".
Definition query_port : string := "query_port".
Definition system_port : string := "system_port".
Definition settings_port : string := "settings_port".
Definition logging_port : string := "logging_port".
Definition events_ws_port : string := "events_ws_port".
End fields.

(** What main receives from outside: the command line, the JSON parser
    on the argument and on the file it names ([None] when [error] is
    set), the generated id, the initial logging level, the interface
    addresses, and how the node runs on its prepared settings, from the
    reconfiguration of the logging streams to the termination signal. *)
Record environment : Type := mk_environment {
  argv1 : option string;
  parse_string : string -> option Json.value;
  parse_file : string -> option Json.value;
  make_id : string;
  level : Z;
  interface_addresses : list string;
  run : Json.value -> outcome unit
}.

(** An integer setting that is present: [json_exception] for a value of
    another type. *)
Definition as_integer (v : Json.value) : outcome Z :=
  match v with
  | Json.number n => Returned n
  | _ => Thrown json_exception
  end.

(** The first element of an array setting: [json_exception] for a value
    that is not an array or has no element. *)
Definition first_element (v : Json.value) : outcome Json.value :=
  match v with
  | Json.array (x :: _) => Returned x
  | _ => Thrown json_exception
  end.

(** Lines 56-70: the settings of the command line; [None] where main
    returns -1. *)
Definition command_line_settings (env : environment) : option Json.value :=
  match argv1 env with
  | None => Some Json.null
  | Some arg =>
      let parsed :=
        match parse_string env arg with
        | Some v => Some v
        | None => parse_file env arg
        end in
      match parsed with
      | None => None
      | Some settings =>
          if negb (Json.is_object settings) then None else Some settings
      end
  end.

(** Lines 92-101: the specific port settings that were omitted take the
    value of http_port when it is present. *)
Definition default_ports (settings : Json.value) : outcome Json.value :=
  if Json.has_field settings fields.http_port then
    http_port <- (match Json.field settings fields.http_port with
                  | Some v => as_integer v
                  | None => Returned 0
                  end) ;;
    let settings := Json.insert settings fields.registration_port (Json.number http_port) in
    let settings := Json.insert settings fields.node_port (Json.number http_port) in
    let settings := Json.insert settings fields.connection_port (Json.number http_port) in
    let settings := Json.insert settings fields.settings_port (Json.number http_port) in
    let settings := Json.insert settings fields.logging_port (Json.number http_port) in
    Returned settings
  else Returned settings.

(** The port settings that take the value of http_port. *)
Definition defaulted_ports : list string :=
  [fields.registration_port; fields.node_port; fields.connection_port;
   fields.settings_port; fields.logging_port].

(** The listener port settings of the configuration. *)
Definition port_settings : list string :=
  [fields.node_port; fields.connection_port; fields.events_port;
   fields.registration_port; fields.query_port; fields.system_port;
   fields.settings_port; fields.logging_port; fields.events_ws_port].

(** Lines 72-101: the run-time default settings. *)
Definition prepare_settings (env : environment) (settings : Json.value)
    : outcome Json.value :=
  let settings := Json.insert settings fields.seed_id (Json.string_ (make_id env)) in
  let settings := Json.insert settings fields.logging_level (Json.number (level env)) in
  _ <- (match Json.field settings fields.logging_level with
        | Some v => as_integer v
        | None => Returned (level env)
        end) ;;
  let settings :=
    match interface_addresses env with
    | [] => settings
    | addresses =>
        Json.insert settings fields.host_addresses
          (Json.array (map Json.string_ addresses))
    end in
  settings <-
    (match Json.field settings fields.host_addresses with
     | Some addresses =>
         first <- first_element addresses ;;
         Returned (Json.insert settings fields.host_address first)
     | None => Returned settings
     end) ;;
  default_ports settings.

(** The handlers at the end of main: what each logs. *)
Definition handler (e : exception) : log_entry :=
  match e with
  | json_exception => (error, "JSON error: ")
  | http_exception => (error, "HTTP error: ")
  | system_error => (error, "System error: ")
  | runtime_error => (error, "Implementation error: ")
  | std_exception => (error, "Unexpected exception: ")
  | unknown_exception => (severe, "Unexpected unknown exception")
  end.

(** [main]: the exit code and what is logged. *)
Definition main (env : environment) : Z * list log_entry :=
  let starting := (info, "Starting nmos-cpp node") in
  match command_line_settings env with
  | None => (-1, [starting; (severe, "Bad command-line settings [")])
  | Some settings =>
      let body := settings <- prepare_settings env settings ;; run env settings in
      let stopping := (info, "Stopping nmos-cpp node") in
      match body with
      | Returned _ => (0, [starting; stopping])
      | Thrown e => (0, [starting; handler e; stopping])
      end
  end.

End NodeMain.

(** * Properties *)

(** ** Writing a number and reading it back *)

Module StreamFacts.
Import Stream.

Lemma digit_val_digit_char (d : N) :
  (d < 10)%N -> digit_val (digit_char d) = Some d.
Proof.
  intros Hd. unfold digit_val, digit_char.
  rewrite N_ascii_embedding by lia.
  replace ((48 <=? 48 + d) && (48 + d <=? 57))%N with true.
  - f_equal. lia.
  - symmetry. apply andb_true_intro. split; apply N.leb_le; lia.
Qed.

Lemma digit_val_range (c : ascii) (d : N) :
  digit_val c = Some d -> (48 <= N_of_ascii c <= 57)%N.
Proof.
  unfold digit_val.
  destruct ((48 <=? N_of_ascii c) && (N_of_ascii c <=? 57))%N eqn:E; [|discriminate].
  intros _. apply andb_prop in E. destruct E as [E1 E2].
  apply N.leb_le in E1. apply N.leb_le in E2. lia.
Qed.

Lemma is_digit_range (c : ascii) :
  is_digit c = true -> (48 <= N_of_ascii c <= 57)%N.
Proof.
  unfold is_digit. destruct (digit_val c) eqn:E; [|discriminate].
  intros _. eapply digit_val_range; eauto.
Qed.

Lemma is_digit_digit_char (d : N) : (d < 10)%N -> is_digit (digit_char d) = true.
Proof.
  intros Hd. unfold is_digit. now rewrite digit_val_digit_char.
Qed.

Lemma get_digits_stop (s : string) (acc : N) :
  starts_with_digit s = false -> get_digits s acc = (acc, s).
Proof.
  destruct s as [|c s]; simpl; [reflexivity|].
  unfold is_digit. destruct (digit_val c); [discriminate | reflexivity].
Qed.

Lemma get_digits_put_digits (fuel : nat) :
  forall (n : N) (tail : string),
    (n < 10 ^ N.of_nat fuel)%N ->
    get_digits (put_digits fuel n tail) 0 = get_digits tail n.
Proof.
  induction fuel as [|fuel IH]; intros n tail Hn.
  - simpl in *. assert (n = 0%N) by lia. now subst.
  - cbn [put_digits]. destruct (n <? 10)%N eqn:E.
    + apply N.ltb_lt in E. cbn [get_digits].
      rewrite N.mod_small by lia. rewrite digit_val_digit_char by lia.
      reflexivity.
    + apply N.ltb_ge in E. rewrite IH.
      * cbn [get_digits].
        rewrite digit_val_digit_char by (apply N.mod_lt; lia).
        f_equal. rewrite (N.div_mod n 10) at 3 by lia. lia.
      * rewrite Nat2N.inj_succ, N.pow_succ_r' in Hn.
        apply N.Div0.div_lt_upper_bound. lia.
Qed.

Lemma put_digits_starts (fuel : nat) :
  forall (n : N) (tail : string),
    starts_with_digit tail = true ->
    starts_with_digit (put_digits fuel n tail) = true.
Proof.
  induction fuel as [|fuel IH]; intros n tail Ht; [exact Ht|].
  cbn [put_digits].
  assert (Hd : starts_with_digit (String (digit_char (n mod 10)) tail) = true).
  { simpl. apply is_digit_digit_char. apply N.mod_lt. lia. }
  destruct (n <? 10)%N; [exact Hd | now apply IH].
Qed.

Lemma put_digits_app (fuel : nat) :
  forall (n : N) (tail rest : string),
    (put_digits fuel n tail ++ rest)%string = put_digits fuel n (tail ++ rest).
Proof.
  induction fuel as [|fuel IH]; intros n tail rest; [reflexivity|].
  cbn [put_digits]. destruct (n <? 10)%N; [reflexivity|].
  now rewrite IH.
Qed.

Lemma put_N_fuel (n : N) : (n < 10 ^ N.of_nat (S (N.to_nat (N.size n))))%N.
Proof.
  rewrite Nat2N.inj_succ, N2Nat.id.
  destruct n as [|p]; [cbn; lia|].
  apply N.lt_le_trans with (2 ^ N.size (N.pos p))%N.
  - apply N.size_gt.
  - apply N.le_trans with (10 ^ N.size (N.pos p))%N.
    + apply N.pow_le_mono_l. lia.
    + apply N.pow_le_mono_r; lia.
Qed.

Lemma put_N_starts (n : N) (rest : string) :
  starts_with_digit (put_N n ++ rest) = true.
Proof.
  unfold put_N. rewrite put_digits_app. cbn [put_digits].
  assert (Hd : starts_with_digit (String (digit_char (n mod 10)) ("" ++ rest)) = true).
  { simpl. apply is_digit_digit_char. apply N.mod_lt. lia. }
  destruct (n <? 10)%N; [exact Hd | now apply put_digits_starts].
Qed.

(** Reading an unsigned number written by [put_N] gives the number back,
    and leaves what follows it when that does not start with a digit. *)
Lemma get_N_put_N (n : N) (rest : string) :
  starts_with_digit rest = false ->
  get_N (put_N n ++ rest) = Some (n, rest).
Proof.
  intros Hrest. unfold get_N. rewrite put_N_starts.
  unfold put_N. rewrite put_digits_app.
  rewrite get_digits_put_digits by apply put_N_fuel.
  simpl append. now rewrite get_digits_stop.
Qed.

Lemma append_empty_r (s : string) : (s ++ "")%string = s.
Proof. induction s as [|c s IH]; simpl; [reflexivity | now rewrite IH]. Qed.

Lemma append_assoc (s t u : string) : ((s ++ t) ++ u)%string = (s ++ (t ++ u))%string.
Proof. induction s as [|c s IH]; simpl; [reflexivity | now rewrite IH]. Qed.

Lemma get_N_put_N_end (n : N) : get_N (put_N n) = Some (n, ""%string).
Proof.
  rewrite <- (append_empty_r (put_N n)) at 1. now apply get_N_put_N.
Qed.

Lemma put_N_cons (n : N) :
  exists c s, put_N n = String c s /\ is_digit c = true.
Proof.
  pose proof (put_N_starts n "") as H. rewrite append_empty_r in H.
  destruct (put_N n) as [|c s]; [discriminate|].
  exists c, s. split; [reflexivity | exact H].
Qed.

Lemma clamp_int_id (z : Z) : int_min <= z <= int_max -> clamp_int z = z.
Proof.
  intros [H1 H2]. unfold clamp_int.
  destruct (z <? int_min) eqn:E1; [apply Z.ltb_lt in E1; lia|].
  destruct (int_max <? z) eqn:E2; [apply Z.ltb_lt in E2; lia|].
  reflexivity.
Qed.

(** [is >> result] on what [os << z] wrote gives [z] back, for every
    [int] value. *)
Lemma get_int_put_Z (z init : Z) :
  int_min <= z <= int_max -> get_int (put_Z z) init = z.
Proof.
  intros Hz. unfold put_Z, get_int.
  destruct (z <? 0) eqn:E.
  - apply Z.ltb_lt in E. cbn [skip_ws].
    replace (is_space "-") with false by reflexivity.
    replace (Ascii.eqb "-" "-") with true by reflexivity.
    rewrite get_N_put_N_end. rewrite N2Z.inj_abs_N.
    rewrite clamp_int_id; lia.
  - apply Z.ltb_ge in E.
    destruct (put_N_cons (Z.to_N z)) as (c & s & Heq & Hc).
    pose proof (get_N_put_N_end (Z.to_N z)) as Hget. rewrite Heq in *.
    pose proof (is_digit_range c Hc) as Hr.
    assert (Hsp : is_space c = false).
    { unfold is_space. apply orb_false_intro.
      - apply N.eqb_neq. lia.
      - apply andb_false_intro2. apply N.leb_gt. lia. }
    cbn [skip_ws]. rewrite Hsp.
    assert (Hminus : Ascii.eqb c "-" = false).
    { apply Ascii.eqb_neq. intros ->. simpl in Hr. lia. }
    assert (Hplus : Ascii.eqb c "+" = false).
    { apply Ascii.eqb_neq. intros ->. simpl in Hr. lia. }
    rewrite Hminus, Hplus, Hget. rewrite Z2N.id by lia.
    apply clamp_int_id. exact Hz.
Qed.

Lemma all_chars_app (p : ascii -> bool) (s t : string) :
  all_chars p (s ++ t) = all_chars p s && all_chars p t.
Proof.
  induction s as [|c s IH]; simpl; [reflexivity|].
  now rewrite IH, andb_assoc.
Qed.

Lemma all_chars_put_digits (p : ascii -> bool) (fuel : nat) :
  (forall c, is_digit c = true -> p c = true) ->
  forall n tail, all_chars p tail = true ->
    all_chars p (put_digits fuel n tail) = true.
Proof.
  intros Hp. induction fuel as [|fuel IH]; intros n tail Ht; [exact Ht|].
  cbn [put_digits].
  assert (Hd : all_chars p (String (digit_char (n mod 10)) tail) = true).
  { simpl. rewrite Ht, Hp; [reflexivity|].
    apply is_digit_digit_char. apply N.mod_lt. lia. }
  destruct (n <? 10)%N; [exact Hd | now apply IH].
Qed.

Lemma all_chars_put_N (p : ascii -> bool) (n : N) :
  (forall c, is_digit c = true -> p c = true) ->
  all_chars p (put_N n) = true.
Proof.
  intros Hp. unfold put_N. now apply all_chars_put_digits.
Qed.

Lemma split_aux_no_sep (is_sep : ascii -> bool) (s : string) :
  all_chars (fun c => negb (is_sep c)) s = true ->
  split_aux is_sep s = (s, []).
Proof.
  induction s as [|c s IH]; simpl; [reflexivity|].
  intros H. apply andb_prop in H. destruct H as [Hc Hs].
  rewrite (IH Hs). apply negb_true_iff in Hc. now rewrite Hc.
Qed.

Lemma split_aux_app (is_sep : ascii -> bool) (sep : ascii) (s t : string) :
  is_sep sep = true ->
  all_chars (fun c => negb (is_sep c)) s = true ->
  split_aux is_sep (s ++ String sep t) = (s, split is_sep t).
Proof.
  intros Hsep. induction s as [|c s IH]; simpl; intros H.
  - rewrite Hsep. unfold split. now destruct (split_aux is_sep t).
  - apply andb_prop in H. destruct H as [Hc Hs].
    rewrite (IH Hs). apply negb_true_iff in Hc. now rewrite Hc.
Qed.

(** Splitting what [join] wrote gives the tokens back, when no token
    holds the separator and there is at least one token. *)
Lemma split_join (is_sep : ascii -> bool) (sep : ascii) (l : list string) :
  is_sep sep = true ->
  l <> [] ->
  Forall (fun s => all_chars (fun c => negb (is_sep c)) s = true) l ->
  split is_sep (join (String sep "") l) = l.
Proof.
  intros Hsep. induction l as [|x l IH]; intros Hne Hall; [congruence|].
  inversion Hall as [|? ? Hx Hl]; subst.
  destruct l as [|y l].
  - simpl. unfold split. now rewrite split_aux_no_sep.
  - change (join (String sep "") (x :: y :: l))
      with (x ++ String sep (join (String sep "") (y :: l)))%string.
    unfold split at 1. rewrite split_aux_app by assumption.
    rewrite IH; [reflexivity | congruence | assumption].
Qed.

Lemma join_split_aux (is_sep : ascii -> bool) (sep : ascii) (s : string) :
  (forall c, is_sep c = true -> c = sep) ->
  join (String sep "") (fst (split_aux is_sep s) :: snd (split_aux is_sep s)) = s.
Proof.
  intros Hsep. induction s as [|c s IH]; [reflexivity|].
  cbn [split_aux]. destruct (split_aux is_sep s) as [tok toks].
  cbn [fst snd] in IH. destruct (is_sep c) eqn:E.
  - cbn [fst snd]. apply Hsep in E. subst c.
    change (join (String sep "") ("" :: tok :: toks))
      with (String sep (join (String sep "") (tok :: toks)))%string.
    now rewrite IH.
  - cbn [fst snd]. destruct toks as [|t toks].
    + simpl in *. now rewrite IH.
    + change (join (String sep "") (String c tok :: t :: toks))
        with (String c (tok ++ String sep "" ++ join (String sep "") (t :: toks)))%string.
      f_equal. exact IH.
Qed.

(** [join] undoes [split]: a string is determined by its tokens. *)
Lemma join_split (is_sep : ascii -> bool) (sep : ascii) (s : string) :
  (forall c, is_sep c = true -> c = sep) ->
  join (String sep "") (split is_sep s) = s.
Proof.
  intros Hsep. unfold split.
  pose proof (join_split_aux is_sep sep s Hsep) as H.
  now destruct (split_aux is_sep s).
Qed.

End StreamFacts.

(** ** API versions and version sets *)

Module ApiVersionFacts.
Import Stream ApiVersion StreamFacts.

Lemma eqb_eq (a b : api_version) : eqb a b = true <-> a = b.
Proof.
  destruct a as [a1 a2], b as [b1 b2]. unfold eqb; simpl. split.
  - intros H. apply andb_prop in H. destruct H as [H1 H2].
    apply N.eqb_eq in H1. apply N.eqb_eq in H2. now subst.
  - intros H. inversion H; subst. now rewrite !N.eqb_refl.
Qed.

Lemma eqb_refl (a : api_version) : eqb a a = true.
Proof. now apply eqb_eq. Qed.

Lemma ltb_lt (a b : api_version) :
  ltb a b = true <->
  (major a < major b \/ (major a = major b /\ minor a < minor b))%N.
Proof.
  unfold ltb. rewrite orb_true_iff, andb_true_iff.
  rewrite !N.ltb_lt, N.eqb_eq. reflexivity.
Qed.

Lemma ltb_ge (a b : api_version) :
  ltb a b = false <->
  (major b < major a \/ (major a = major b /\ minor b <= minor a))%N.
Proof.
  rewrite <- not_true_iff_false, ltb_lt. lia.
Qed.

Lemma ltb_irrefl (a : api_version) : ltb a a = false.
Proof. apply ltb_ge. lia. Qed.

Lemma ltb_trans (a b c : api_version) :
  ltb a b = true -> ltb b c = true -> ltb a c = true.
Proof. rewrite !ltb_lt. lia. Qed.

Lemma ltb_asym (a b : api_version) : ltb a b = true -> ltb b a = false.
Proof. rewrite ltb_lt, ltb_ge. lia. Qed.

Lemma ltb_total (a b : api_version) :
  ltb a b = false -> ltb b a = false -> a = b.
Proof.
  rewrite !ltb_ge. destruct a, b; simpl. intros H1 H2.
  f_equal; lia.
Qed.

Lemma dot_not_digit (s : string) : starts_with_digit (String "." s) = false.
Proof. reflexivity. Qed.

(** Reading a version written by [make_api_version] gives it back. *)
Lemma parse_make_api_version (v : api_version) :
  parse_api_version (make_api_version v) = v.
Proof.
  destruct v as [ma mi]. unfold parse_api_version, make_api_version; simpl.
  rewrite get_N_put_N by apply dot_not_digit.
  now rewrite get_N_put_N_end.
Qed.

Lemma digit_not_comma (c : ascii) :
  is_digit c = true -> negb (Ascii.eqb "," c) = true.
Proof.
  intros H. apply is_digit_range in H. apply negb_true_iff.
  apply Ascii.eqb_neq. intros <-. simpl in H. lia.
Qed.

Lemma make_api_version_no_comma (v : api_version) :
  all_chars (fun c => negb (Ascii.eqb "," c)) (make_api_version v) = true.
Proof.
  unfold make_api_version. cbn [all_chars].
  rewrite all_chars_app. cbn [all_chars].
  rewrite !all_chars_put_N by apply digit_not_comma.
  reflexivity.
Qed.

Lemma set_insert_In (v w : api_version) (s : version_set) :
  In w (set_insert v s) -> w = v \/ In w s.
Proof.
  induction s as [|x s IH]; simpl.
  - intros [H|[]]; auto.
  - destruct (ltb v x).
    + intros [H|H]; auto.
    + destruct (ltb x v).
      * intros [H|H]; [auto|]. destruct (IH H); auto.
      * auto.
Qed.

Lemma set_insert_ascending (v : api_version) (s : version_set) :
  ascending s -> ascending (set_insert v s).
Proof.
  unfold ascending. induction s as [|x s IH]; intros Hs; simpl.
  - repeat constructor.
  - inversion Hs as [|? ? Hs' Hx]; subst.
    destruct (ltb v x) eqn:E1.
    + constructor; [assumption|]. constructor; [assumption|].
      rewrite Forall_forall in *. intros w Hw. eapply ltb_trans; eauto.
    + destruct (ltb x v) eqn:E2; [|assumption].
      constructor; [now apply IH|].
      rewrite Forall_forall in *. intros w Hw.
      apply set_insert_In in Hw. destruct Hw as [->|Hw]; auto.
Qed.

Lemma set_of_range_ascending_from (l : list api_version) :
  forall s, ascending s ->
    ascending (fold_left (fun s v => set_insert v s) l s).
Proof.
  induction l as [|v l IH]; intros s Hs; simpl; [assumption|].
  apply IH. now apply set_insert_ascending.
Qed.

(** Whatever is copied into a set comes out strictly ascending. *)
Lemma set_of_range_ascending (l : list api_version) : ascending (set_of_range l).
Proof.
  apply set_of_range_ascending_from. constructor.
Qed.

Lemma set_insert_last (v : api_version) (s : version_set) :
  Forall (fun x => ltb x v = true) s -> set_insert v s = (s ++ [v])%list.
Proof.
  induction s as [|x s IH]; intros H; simpl; [reflexivity|].
  inversion H as [|? ? Hx Hs]; subst.
  rewrite (ltb_asym _ _ Hx), Hx. now rewrite IH.
Qed.

Lemma ascending_app_inv (s t : version_set) :
  ascending (s ++ t)%list ->
  forall x y, In x s -> In y t -> ltb x y = true.
Proof.
  unfold ascending. induction s as [|a s IH]; intros H x y Hx Hy; [destruct Hx|].
  simpl in H. inversion H as [|? ? Hs Ha]; subst.
  destruct Hx as [->|Hx].
  - rewrite Forall_forall in Ha. apply Ha. apply in_or_app. now right.
  - now apply IH.
Qed.

Lemma set_of_range_from (l : list api_version) :
  forall s, ascending (s ++ l)%list ->
    fold_left (fun s v => set_insert v s) l s = (s ++ l)%list.
Proof.
  induction l as [|v l IH]; intros s H; simpl.
  - now rewrite app_nil_r.
  - rewrite set_insert_last.
    + rewrite IH; rewrite <- app_assoc; [reflexivity | exact H].
    + rewrite Forall_forall. intros x Hx.
      apply (ascending_app_inv s (v :: l) H); [assumption | now left].
Qed.

(** Copying the elements of a set into a set gives the same set. *)
Lemma set_of_range_id (s : version_set) : ascending s -> set_of_range s = s.
Proof.
  intros H. unfold set_of_range. now rewrite set_of_range_from.
Qed.

Lemma find_app {A : Type} (p : A -> bool) (l1 l2 : list A) :
  find p (l1 ++ l2)%list =
  match find p l1 with Some x => Some x | None => find p l2 end.
Proof.
  induction l1 as [|a l1 IH]; simpl; [reflexivity|].
  destruct (p a); [reflexivity | exact IH].
Qed.

(** In a set walked from its end, the first element that satisfies [p]
    is the highest one that does. *)
Lemma find_rev_highest (p : api_version -> bool) (s : version_set) :
  ascending s ->
  forall v, find p (rev s) = Some v ->
    In v s /\ p v = true /\
    (forall w, In w s -> p w = true -> ltb v w = false).
Proof.
  unfold ascending. induction s as [|x s IH]; intros Hs v Hv; [discriminate|].
  inversion Hs as [|? ? Hs' Hx]; subst.
  simpl in Hv. rewrite find_app in Hv.
  destruct (find p (rev s)) as [u|] eqn:E.
  - inversion Hv; subst u. destruct (IH Hs' v eq_refl) as (Hin & Hp & Hmax).
    split; [now right|]. split; [assumption|].
    intros w [<-|Hw] Hpw.
    + apply ltb_asym. rewrite Forall_forall in Hx. now apply Hx.
    + now apply Hmax.
  - simpl in Hv. destruct (p x) eqn:Hpx; [|discriminate].
    inversion Hv; subst v. split; [now left|]. split; [assumption|].
    intros w [<-|Hw] Hpw; [apply ltb_irrefl|].
    exfalso. apply find_none with (x := w) in E; [congruence|].
    now apply in_rev in Hw.
Qed.

Lemma find_rev_none (p : api_version -> bool) (s : version_set) :
  find p (rev s) = None -> forall w, In w s -> p w = false.
Proof.
  intros H w Hw. apply find_none with (x := w) in H; [assumption|].
  now apply in_rev in Hw.
Qed.

Lemma existsb_eqb_In (v : api_version) (s : list api_version) :
  existsb (eqb v) s = true <-> In v s.
Proof.
  rewrite existsb_exists. split.
  - intros (x & Hx & He). apply eqb_eq in He. now subst.
  - intros H. exists v. split; [assumption | apply eqb_refl].
Qed.

(** [find_first_of] over the two sets walked from their ends: the highest
    version that is in both. *)
Lemma find_first_of_highest (resolved_vers api_ver : version_set) :
  ascending resolved_vers ->
  forall v, find_first_of (rev resolved_vers) (rev api_ver) = Some v ->
    In v resolved_vers /\ In v api_ver /\
    (forall w, In w resolved_vers -> In w api_ver -> ltb v w = false).
Proof.
  intros Hs v Hv. unfold find_first_of in Hv.
  destruct (find_rev_highest _ _ Hs v Hv) as (Hin & Hp & Hmax).
  split; [assumption|]. split.
  - apply existsb_eqb_In in Hp. now rewrite <- in_rev in Hp.
  - intros w Hw Hw'. apply Hmax; [assumption|].
    apply existsb_eqb_In. now rewrite <- in_rev.
Qed.

Lemma find_first_of_none (resolved_vers api_ver : version_set) :
  find_first_of (rev resolved_vers) (rev api_ver) = None ->
  forall w, In w resolved_vers -> ~ In w api_ver.
Proof.
  intros H w Hw Hw'. unfold find_first_of in H.
  pose proof (find_rev_none _ _ H w Hw) as Hp.
  assert (existsb (eqb w) (rev api_ver) = true); [|congruence].
  apply existsb_eqb_In. now rewrite <- in_rev.
Qed.

End ApiVersionFacts.

(** ** [std::stable_sort] *)

Module SortFacts.
Import Nmos.

Section StableSort.

Variable A : Type.
Variable comp : A -> A -> bool.

Lemma stable_insert_perm (x : A) (l : list A) :
  Permutation (x :: l) (stable_insert comp x l).
Proof.
  induction l as [|y l IH]; simpl; [apply Permutation_refl|].
  destruct (comp y x); [|apply Permutation_refl].
  eapply perm_trans; [apply perm_swap|]. now apply perm_skip.
Qed.

(** The sorted vector holds the same elements. *)
Lemma stable_sort_perm (l : list A) : Permutation l (stable_sort comp l).
Proof.
  induction l as [|x l IH]; simpl; [constructor|].
  eapply perm_trans; [apply perm_skip, IH | apply stable_insert_perm].
Qed.

(** [comp] is a strict weak ordering, as [std::stable_sort] requires. *)
Hypothesis comp_asym : forall a b, comp a b = true -> comp b a = false.
Hypothesis comp_negtrans :
  forall a b c, comp a b = false -> comp b c = false -> comp a c = false.

Let ordered (a b : A) : Prop := comp b a = false.

Lemma stable_insert_In (x y : A) (l : list A) :
  In y (stable_insert comp x l) -> y = x \/ In y l.
Proof.
  intros H. apply Permutation_in with (l' := x :: l) in H.
  - destruct H; auto.
  - apply Permutation_sym, stable_insert_perm.
Qed.

Lemma stable_insert_sorted (x : A) (l : list A) :
  StronglySorted ordered l -> StronglySorted ordered (stable_insert comp x l).
Proof.
  induction l as [|y l IH]; intros Hl; simpl.
  - repeat constructor.
  - inversion Hl as [|? ? Hl' Hy]; subst.
    destruct (comp y x) eqn:E.
    + constructor; [now apply IH|].
      rewrite Forall_forall in *. intros z Hz.
      apply stable_insert_In in Hz. destruct Hz as [->|Hz].
      * unfold ordered. now apply comp_asym.
      * now apply Hy.
    + constructor; [assumption|]. constructor; [exact E|].
      rewrite Forall_forall in *. intros z Hz. unfold ordered.
      apply comp_negtrans with (b := y); [now apply Hy | exact E].
Qed.

(** No element of the sorted vector is [comp]-less than one before it. *)
Lemma stable_sort_sorted (l : list A) : StronglySorted ordered (stable_sort comp l).
Proof.
  induction l as [|x l IH]; simpl; [constructor|].
  now apply stable_insert_sorted.
Qed.

Lemma stable_insert_filter (k x : A) (l : list A) :
  filter (equivalent comp k) (stable_insert comp x l)
  = filter (equivalent comp k) (x :: l).
Proof.
  induction l as [|y l IH]; [reflexivity|].
  cbn [stable_insert]. destruct (comp y x) eqn:E; [|reflexivity].
  cbn [filter] in *. rewrite IH.
  destruct (equivalent comp k y) eqn:Ey; [|reflexivity].
  destruct (equivalent comp k x) eqn:Ex; [|reflexivity].
  exfalso. unfold equivalent in Ey, Ex.
  apply andb_prop in Ey. destruct Ey as [_ Ey].
  apply andb_prop in Ex. destruct Ex as [Ex _].
  apply negb_true_iff in Ey. apply negb_true_iff in Ex.
  rewrite (comp_negtrans y k x Ey Ex) in E. discriminate.
Qed.

(** Elements that [comp] does not order keep their relative order. *)
Lemma stable_sort_stable (k : A) (l : list A) :
  filter (equivalent comp k) (stable_sort comp l) = filter (equivalent comp k) l.
Proof.
  induction l as [|x l IH]; [reflexivity|].
  cbn [stable_sort]. rewrite stable_insert_filter.
  cbn [filter]. now rewrite IH.
Qed.

Lemma comp_irrefl (a : A) : comp a a = false.
Proof.
  destruct (comp a a) eqn:E; [|reflexivity].
  pose proof (comp_asym a a E). congruence.
Qed.

Lemma equivalent_refl (a : A) : equivalent comp a a = true.
Proof. unfold equivalent. now rewrite comp_irrefl. Qed.

Lemma equivalent_sym (a b : A) : equivalent comp a b = equivalent comp b a.
Proof. unfold equivalent. apply andb_comm. Qed.

Lemma filter_head_In (k x : A) (l l' : list A) :
  filter (equivalent comp k) l = x :: l' -> In x l.
Proof.
  intros H. assert (Hx : In x (filter (equivalent comp k) l)) by (rewrite H; now left).
  apply filter_In in Hx. tauto.
Qed.

(** Two sorted vectors that agree on every class of unordered elements
    are the same vector: the result of a stable sort does not depend on
    the algorithm. *)
Lemma sorted_stable_unique (l1 : list A) :
  forall l2,
    StronglySorted ordered l1 -> StronglySorted ordered l2 ->
    (forall k, filter (equivalent comp k) l1 = filter (equivalent comp k) l2) ->
    l1 = l2.
Proof.
  induction l1 as [|x l1 IH]; intros l2 H1 H2 Heq.
  - destruct l2 as [|y l2]; [reflexivity|].
    specialize (Heq y). cbn [filter] in Heq.
    rewrite equivalent_refl in Heq. discriminate.
  - destruct l2 as [|y l2].
    { specialize (Heq x). cbn [filter] in Heq.
      rewrite equivalent_refl in Heq. discriminate. }
    inversion H1 as [|? ? H1' Hx]; subst.
    inversion H2 as [|? ? H2' Hy]; subst.
    rewrite Forall_forall in Hx, Hy.
    assert (Hxy : x = y).
    { pose proof (Heq x) as Ex. cbn [filter] in Ex.
      rewrite equivalent_refl in Ex.
      destruct (equivalent comp x y) eqn:E; [now inversion Ex|].
      exfalso. symmetry in Ex. apply filter_head_In in Ex.
      pose proof (Hy x Ex) as Hyx. unfold ordered in Hyx.
      pose proof (Heq y) as Ey. cbn [filter] in Ey.
      rewrite equivalent_refl, (equivalent_sym y x), E in Ey.
      apply filter_head_In in Ey.
      pose proof (Hx y Ey) as Hxy. unfold ordered in Hxy.
      unfold equivalent in E. rewrite Hyx, Hxy in E. discriminate. }
    subst y. f_equal. apply IH; [assumption | assumption|].
    intros k. specialize (Heq k). cbn [filter] in Heq.
    destruct (equivalent comp k x); [now inversion Heq | exact Heq].
Qed.

(** [stable_sort] is the stable sort: any sorted arrangement of [l] that
    keeps unordered elements in their order is its result. *)
Lemma stable_sort_unique (l l' : list A) :
  StronglySorted ordered l' ->
  (forall k, filter (equivalent comp k) l' = filter (equivalent comp k) l) ->
  l' = stable_sort comp l.
Proof.
  intros Hs Hst. apply sorted_stable_unique.
  - exact Hs.
  - apply stable_sort_sorted.
  - intros k. rewrite Hst. symmetry. apply stable_sort_stable.
Qed.

End StableSort.

End SortFacts.

(** ** TXT records and the resolver of mdns.cpp *)

Module NmosFacts.
Import Stream ApiVersion Nmos StreamFacts ApiVersionFacts SortFacts.

Lemma parse_txt_record_here {T : Type} (key k value : string)
    (records : Mdns.structured_txt_records) (parse : string -> T) (d : T) :
  String.eqb k key = true ->
  Mdns.parse_txt_record ((k, value) :: records) key parse d = parse value.
Proof.
  intros H. unfold Mdns.parse_txt_record. simpl. now rewrite H.
Qed.

Lemma parse_txt_record_skip {T : Type} (key k value : string)
    (records : Mdns.structured_txt_records) (parse : string -> T) (d : T) :
  String.eqb k key = false ->
  Mdns.parse_txt_record ((k, value) :: records) key parse d
  = Mdns.parse_txt_record records key parse d.
Proof.
  intros H. unfold Mdns.parse_txt_record. simpl. now rewrite H.
Qed.

Lemma parse_txt_record_nil {T : Type} (key : string) (parse : string -> T) (d : T) :
  Mdns.parse_txt_record [] key parse d = d.
Proof. reflexivity. Qed.

Ltac txt_lookup :=
  repeat first
    [ rewrite parse_txt_record_here by reflexivity
    | rewrite parse_txt_record_skip by reflexivity
    | rewrite parse_txt_record_nil ].

Lemma parse_make_ver_value (ver : api_resource_version) :
  0 <= ver < api_resource_version_modulus ->
  parse_ver_value (make_ver_value ver) = ver.
Proof.
  unfold api_resource_version_modulus. intros Hv.
  unfold parse_ver_value, make_ver_value, istringstreamed, ostringstreamed.
  rewrite get_int_put_Z by (unfold int_min, int_max; lia).
  unfold api_resource_version_modulus. apply Z.mod_small. lia.
Qed.

Lemma parse_make_pri_value (no_priority pri : service_priority) :
  int_min <= pri <= int_max ->
  parse_pri_value no_priority (make_pri_value pri) = pri.
Proof.
  intros Hp. unfold parse_pri_value, make_pri_value, istringstreamed, ostringstreamed.
  now apply get_int_put_Z.
Qed.

Lemma map_parse_make_api_version (l : list api_version) :
  map parse_api_version (map make_api_version l) = l.
Proof.
  rewrite map_map. rewrite <- (map_id l) at 2.
  apply map_ext. apply parse_make_api_version.
Qed.

Lemma parse_make_api_ver_value (api_ver : version_set) :
  api_ver <> [] -> ascending api_ver ->
  parse_api_ver_value (make_api_ver_value api_ver) = api_ver.
Proof.
  intros Hne Hasc. unfold parse_api_ver_value, make_api_ver_value.
  rewrite (split_join (fun c => Ascii.eqb "," c) ",").
  - rewrite map_parse_make_api_version. now apply set_of_range_id.
  - reflexivity.
  - destruct api_ver; [congruence | discriminate].
  - rewrite Forall_forall. intros s Hs. apply in_map_iff in Hs.
    destruct Hs as (v & <- & _). apply make_api_version_no_comma.
Qed.

(** C3 (as amended).  The TXT records round-trip: [parse_ver_records]
    gives back the counters [make_ver_records] wrote; [parse_api_proto_record]
    and [parse_api_ver_record] give back the protocol and the (non-empty)
    version set [make_txt_records] wrote; [parse_pri_record] gives back the
    priority for every service type but the node's, for which no pri
    record is written and the default [no_priority] is read. *)
Theorem txt_records_round_trip
    (no_priority : service_priority) (unspecified : version_set)
    (ver : api_resource_versions)
    (service : service_type) (pri : service_priority)
    (api_ver : version_set) (api_proto : service_protocol) :
  valid_versions ver ->
  api_ver <> [] -> ascending api_ver ->
  int_min <= pri <= int_max ->
  parse_ver_records (make_ver_records ver) = ver
  /\ parse_api_proto_record (make_txt_records service pri api_ver api_proto)
     = api_proto
  /\ parse_api_ver_record unspecified (make_txt_records service pri api_ver api_proto)
     = api_ver
  /\ parse_pri_record no_priority (make_txt_records service pri api_ver api_proto)
     = (if String.eqb service service_types.node then no_priority else pri).
Proof.
  intros (Hself & Hdev & Hsrc & Hflw & Hsnd & Hrcv) Hne Hasc Hpri.
  split; [|split; [|split]].
  - destruct ver as [vself vdev vsrc vflw vsnd vrcv]; simpl in *.
    unfold parse_ver_records, make_ver_records; simpl.
    unfold txt_record_keys.ver_slf, txt_record_keys.ver_src,
      txt_record_keys.ver_flw, txt_record_keys.ver_dvc,
      txt_record_keys.ver_snd, txt_record_keys.ver_rcv.
    txt_lookup. now rewrite !parse_make_ver_value.
  - unfold parse_api_proto_record, make_txt_records.
    destruct (String.eqb service service_types.node);
      unfold txt_record_keys.api_proto; txt_lookup; reflexivity.
  - unfold parse_api_ver_record, make_txt_records.
    destruct (String.eqb service service_types.node);
      unfold txt_record_keys.api_proto, txt_record_keys.api_ver;
      txt_lookup; now apply parse_make_api_ver_value.
  - unfold parse_pri_record, make_txt_records.
    destruct (String.eqb service service_types.node);
      unfold txt_record_keys.api_proto, txt_record_keys.api_ver, txt_record_keys.pri;
      txt_lookup; [reflexivity | now apply parse_make_pri_value].
Qed.

Lemma txt_records_round_trip_witness :
  let ver := mk_api_resource_versions 1 2 3 4 255 0 in
  let records := make_txt_records service_types.registration 50 [v1_2; v1_3] "http" in
  parse_ver_records (make_ver_records ver) = ver
  /\ parse_api_proto_record records = "http"%string
  /\ parse_api_ver_record [v1_0] records = [v1_2; v1_3]
  /\ parse_pri_record 100 records = 50.
Proof.
  apply (txt_records_round_trip 100 [v1_0] (mk_api_resource_versions 1 2 3 4 255 0)
           service_types.registration 50 [v1_2; v1_3] "http").
  - unfold valid_versions, api_resource_version_modulus; simpl. lia.
  - discriminate.
  - unfold ascending. repeat constructor.
  - unfold int_min, int_max. lia.
Defined.

(** C3 as stated fails for the node service type: no pri record is made,
    so the priority read back is the default, not the one given. *)
Lemma txt_records_round_trip_node_pri :
  parse_pri_record 100 (make_txt_records service_types.node 50 [v1_2; v1_3] "http") = 100
  /\ parse_pri_record 100 (make_txt_records service_types.node 50 [v1_2; v1_3] "http") <> 50.
Proof.
  split; [reflexivity | discriminate].
Qed.

Lemma resolved_service_less_asym (a b : resolved_service) :
  resolved_service_less a b = true -> resolved_service_less b a = false.
Proof.
  destruct a as [[va pa] ua], b as [[vb pb] ub].
  unfold resolved_service_less; simpl.
  rewrite orb_true_iff, andb_true_iff, orb_false_iff, andb_false_iff.
  rewrite !eqb_eq, Z.ltb_lt, Z.ltb_ge.
  intros [H|[-> H]].
  - split; [now apply ltb_asym|]. left.
    apply not_true_iff_false. intros He. apply eqb_eq in He. subst.
    rewrite ltb_irrefl in H. discriminate.
  - split; [apply ltb_irrefl|]. right. lia.
Qed.

Lemma resolved_service_less_false (a b : resolved_service) :
  resolved_service_less b a = false <-> ranks_before a b.
Proof.
  destruct a as [[va pa] ua], b as [[vb pb] ub].
  unfold resolved_service_less, ranks_before; simpl.
  rewrite orb_false_iff, andb_false_iff, Z.ltb_ge. split.
  - intros [H1 H2]. destruct (ltb vb va) eqn:E; [now left|].
    right. assert (va = vb) by now apply ltb_total. subst.
    split; [reflexivity|]. destruct H2 as [H2|H2]; [|assumption].
    rewrite eqb_refl in H2. discriminate.
  - intros [H|[-> H]].
    + split; [now apply ltb_asym|]. left.
      apply not_true_iff_false. intros He. apply eqb_eq in He. subst.
      rewrite ltb_irrefl in H. discriminate.
    + split; [apply ltb_irrefl | now right].
Qed.

Lemma ranks_before_trans (a b c : resolved_service) :
  ranks_before a b -> ranks_before b c -> ranks_before a c.
Proof.
  unfold ranks_before. intros [H1|[E1 H1]] [H2|[E2 H2]].
  - left. eapply ltb_trans; eauto.
  - left. now rewrite <- E2.
  - left. now rewrite E1.
  - right. split; [congruence | lia].
Qed.

Lemma resolved_service_less_negtrans (a b c : resolved_service) :
  resolved_service_less a b = false -> resolved_service_less b c = false ->
  resolved_service_less a c = false.
Proof.
  rewrite !resolved_service_less_false. intros H1 H2.
  eapply ranks_before_trans; eauto.
Qed.

Lemma equivalent_same_rank (a b : resolved_service) :
  equivalent resolved_service_less a b = same_rank a b.
Proof.
  destruct a as [[va pa] ua], b as [[vb pb] ub].
  unfold equivalent, same_rank, resolved_service_less; simpl.
  destruct (eqb va vb) eqn:E.
  - apply eqb_eq in E. subst. rewrite eqb_refl, ltb_irrefl. simpl.
    destruct (pa <? pb) eqn:E1, (pb <? pa) eqn:E2, (pa =? pb) eqn:E3;
      try reflexivity; exfalso;
      rewrite ?Z.ltb_lt, ?Z.ltb_ge, ?Z.eqb_eq, ?Z.eqb_neq in *; lia.
  - assert (E' : eqb vb va = false).
    { apply not_true_iff_false. intros H. apply eqb_eq in H. subst.
      rewrite eqb_refl in E. discriminate. }
    rewrite E'. simpl. rewrite !orb_false_r.
    destruct (ltb vb va) eqn:E1; [reflexivity|].
    destruct (ltb va vb) eqn:E2; [reflexivity|].
    exfalso. assert (va = vb) by now apply ltb_total.
    subst. rewrite eqb_refl in E. discriminate.
Qed.

Lemma StronglySorted_weaken {A : Type} (R R' : A -> A -> Prop) (l : list A) :
  (forall a b, R a b -> R' a b) -> StronglySorted R l -> StronglySorted R' l.
Proof.
  intros HR. induction 1 as [|x l Hl IH Hx]; constructor; [assumption|].
  rewrite Forall_forall in *. auto.
Qed.

(** C1.  With randomization disabled, [resolve_service] returns the URIs
    of the collected candidates stable-sorted: the same candidates, the
    higher api_ver first and for the same api_ver the lower pri first,
    candidates of the same api_ver and pri in the order they were found;
    so (v1.2, 10), (v1.3, 100), (v1.3, 10) come back as (v1.3, 10),
    (v1.3, 100), (v1.2, 10). *)
Theorem resolve_service_ranking
    (no_priority : service_priority) (unspecified : version_set)
    (discovery : Mdns.service_discovery) (service : service_type)
    (browse_domain : string) (api_ver : version_set)
    (priorities : service_priority * service_priority)
    (shuffle : list resolved_service -> list resolved_service) :
  (exists ranked,
     resolve_service no_priority unspecified discovery service browse_domain
       api_ver priorities false shuffle = map snd ranked
     /\ Permutation
          (browse_results no_priority unspecified discovery service browse_domain
             api_ver priorities) ranked
     /\ StronglySorted ranks_before ranked
     /\ forall k,
          filter (same_rank k) ranked
          = filter (same_rank k)
              (browse_results no_priority unspecified discovery service
                 browse_domain api_ver priorities))
  /\ (forall u1 u2 u3,
        rank_results false shuffle
          [((v1_2, 10), u1); ((v1_3, 100), u2); ((v1_3, 10), u3)]
        = [u3; u2; u1])
  /\ (let candidate ip ver pri :=
        Mdns.mk_resolve_result ip 3210
          (Mdns.make_txt_records
             (make_txt_records service_types.registration pri [ver] "http")) [ip] in
      map Uri.to_string
        (resolve_service no_priority unspecified
           (discovery_of [candidate "10.0.0.1" v1_2 10; candidate "10.0.0.2" v1_3 100;
                          candidate "10.0.0.3" v1_3 10]%string)
           service_types.registration "local." [v1_2; v1_3] (0, 100) false shuffle)
      = ["http://10.0.0.3:3210/x-nmos/registration/v1.3";
         "http://10.0.0.2:3210/x-nmos/registration/v1.3";
         "http://10.0.0.1:3210/x-nmos/registration/v1.2"]%string).
Proof.
  split; [|split; [reflexivity | reflexivity]].
  set (results := browse_results _ _ _ _ _ _ _).
  exists (stable_sort resolved_service_less results).
  split; [reflexivity|]. split; [apply stable_sort_perm|]. split.
  - apply StronglySorted_weaken
      with (R := fun a b => resolved_service_less b a = false).
    + intros a b. apply resolved_service_less_false.
    + apply stable_sort_sorted.
      * apply resolved_service_less_asym.
      * apply resolved_service_less_negtrans.
  - intros k.
    rewrite (filter_ext (same_rank k) (equivalent resolved_service_less k))
      by (intros; symmetry; apply equivalent_same_rank).
    rewrite (filter_ext (same_rank k) (equivalent resolved_service_less k))
      by (intros; symmetry; apply equivalent_same_rank).
    apply stable_sort_stable. apply resolved_service_less_negtrans.
Qed.

Lemma no_common_version (resolved_vers api_ver : version_set) :
  find_first_of (rev resolved_vers) (rev api_ver) = None
  <-> existsb (fun v => set_mem v api_ver) resolved_vers = false.
Proof.
  split.
  - intros H. apply not_true_iff_false. intros He.
    apply existsb_exists in He. destruct He as (v & Hv & Hm).
    unfold set_mem in Hm. apply existsb_eqb_In in Hm.
    exact (find_first_of_none _ _ H v Hv Hm).
  - intros H. destruct (find_first_of (rev resolved_vers) (rev api_ver)) as [v|] eqn:E;
      [|reflexivity].
    exfalso. unfold find_first_of in E. apply find_some in E. destruct E as [Hv Hm].
    rewrite <- in_rev in Hv. apply existsb_eqb_In in Hm. rewrite <- in_rev in Hm.
    assert (Ht : existsb (fun v => set_mem v api_ver) resolved_vers = true);
      [|congruence].
    apply existsb_exists. exists v. split; [assumption|].
    unfold set_mem. now apply existsb_eqb_In.
Qed.

Lemma outside_band (lo hi pri : Z) :
  (pri <? lo) || (hi <? pri) = negb ((lo <=? pri) && (pri <=? hi)).
Proof.
  rewrite negb_andb, (Z.ltb_antisym lo pri), (Z.ltb_antisym pri hi).
  reflexivity.
Qed.

(** [resolve_handler] in terms of the rejection rule: a rejected candidate
    leaves [results] as they are; any other one appends a URI per address,
    for the version [find_first_of] selects. *)
Lemma resolve_handler_spec
    (no_priority : service_priority) (unspecified : version_set)
    (service : service_type) (api_ver : version_set)
    (priorities : service_priority * service_priority)
    (resolved : Mdns.resolve_result) (results : list resolved_service) :
  let records := Mdns.parse_txt_records (Mdns.resolved_txt_records resolved) in
  resolve_handler no_priority unspecified service api_ver priorities resolved results
  = if rejected no_priority unspecified service api_ver priorities resolved
    then results
    else
      match find_first_of (rev (parse_api_ver_record unspecified records)) (rev api_ver) with
      | None => results
      | Some ver =>
          (results ++
             map (fun ip =>
                    ((ver, parse_pri_record no_priority records),
                     Uri.mk_uri service_protocols.http ip (Mdns.port resolved)
                       ("/x-nmos/" ++ service_api service ++ "/"
                          ++ make_api_version ver)%string))
               (Mdns.ip_addresses resolved))%list
      end.
Proof.
  intros records. unfold resolve_handler, rejected. fold records.
  rewrite outside_band.
  rewrite (String.eqb_sym service_protocols.http (parse_api_proto_record records)).
  destruct (negb (String.eqb service service_types.node)
            && negb ((fst priorities <=? parse_pri_record no_priority records)
                     && (parse_pri_record no_priority records <=? snd priorities))) eqn:Eband.
  { now rewrite orb_true_r. }
  rewrite orb_false_r.
  destruct (String.eqb (parse_api_proto_record records) service_protocols.http) eqn:Eproto.
  2:{ reflexivity. }
  apply String.eqb_eq in Eproto. cbn [negb orb].
  destruct (find_first_of (rev (parse_api_ver_record unspecified records)) (rev api_ver))
    as [ver|] eqn:Efind.
  - destruct (existsb (fun v => set_mem v api_ver)
                (parse_api_ver_record unspecified records)) eqn:Ecommon.
    + cbn [negb]. now rewrite Eproto.
    + apply no_common_version in Ecommon. congruence.
  - destruct (existsb _ _); reflexivity.
Qed.

Lemma resolve_handler_rejected
    (no_priority : service_priority) (unspecified : version_set)
    (service : service_type) (api_ver : version_set)
    (priorities : service_priority * service_priority)
    (resolved : Mdns.resolve_result) (results : list resolved_service) :
  rejected no_priority unspecified service api_ver priorities resolved = true ->
  resolve_handler no_priority unspecified service api_ver priorities resolved results
  = results.
Proof.
  intros H. rewrite resolve_handler_spec. now rewrite H.
Qed.

Lemma fold_left_filter {A B : Type} (f : A -> B -> A) (p : B -> bool) (l : list B) :
  (forall a b, p b = false -> f a b = a) ->
  forall a, fold_left f l a = fold_left f (filter p l) a.
Proof.
  intros Hf. induction l as [|b l IH]; intros a; [reflexivity|].
  simpl. destruct (p b) eqn:E; simpl; [apply IH|].
  rewrite Hf by assumption. apply IH.
Qed.

Lemma fold_left_ext {A B : Type} (f g : A -> B -> A) (l : list B) :
  (forall a b, f a b = g a b) ->
  forall a, fold_left f l a = fold_left g l a.
Proof.
  intros H. induction l as [|b l IH]; intros a; [reflexivity|].
  simpl. rewrite H. apply IH.
Qed.

Lemma browse_results_without_rejected
    (no_priority : service_priority) (unspecified : version_set)
    (discovery : Mdns.service_discovery) (service : service_type)
    (browse_domain : string) (api_ver : version_set)
    (priorities : service_priority * service_priority) :
  browse_results no_priority unspecified discovery service browse_domain api_ver priorities
  = browse_results no_priority unspecified
      (without_rejected no_priority unspecified service api_ver priorities discovery)
      service browse_domain api_ver priorities.
Proof.
  unfold browse_results. cbn [without_rejected Mdns.browse].
  apply fold_left_ext. intros results resolving.
  unfold browse_handler. cbn [without_rejected Mdns.resolve].
  apply fold_left_filter. intros a b Hb.
  apply resolve_handler_rejected. now apply negb_false_iff.
Qed.

(** C4 (as amended).  A candidate whose api_proto is not http, or none of
    whose versions is one the caller requires, or - when the service
    browsed is not the node's - whose pri is outside the inclusive band,
    adds nothing to the results, and [resolve_service] returns what it
    returns without the rejected candidates. *)
Theorem rejected_candidates_dropped
    (no_priority : service_priority) (unspecified : version_set)
    (discovery : Mdns.service_discovery) (service : service_type)
    (browse_domain : string) (api_ver : version_set)
    (priorities : service_priority * service_priority) (randomize : bool)
    (shuffle : list resolved_service -> list resolved_service)
    (resolved : Mdns.resolve_result) (results : list resolved_service) :
  rejected no_priority unspecified service api_ver priorities resolved = true ->
  resolve_handler no_priority unspecified service api_ver priorities resolved results
  = results
  /\ resolve_service no_priority unspecified discovery service browse_domain
       api_ver priorities randomize shuffle
     = resolve_service no_priority unspecified
         (without_rejected no_priority unspecified service api_ver priorities discovery)
         service browse_domain api_ver priorities randomize shuffle.
Proof.
  intros H. split.
  - now apply resolve_handler_rejected.
  - unfold resolve_service. now rewrite <- browse_results_without_rejected.
Qed.

Lemma rejected_candidates_dropped_witness :
  let https_candidate :=
    Mdns.mk_resolve_result "a" 3210
      ["api_proto=https"; "api_ver=v1.3"; "pri=10"]%string ["10.0.0.1"%string] in
  let discovery := discovery_of [https_candidate] in
  rejected 100 [v1_0] service_types.registration [v1_2; v1_3] (0, 99) https_candidate = true
  /\ resolve_handler 100 [v1_0] service_types.registration [v1_2; v1_3] (0, 99)
       https_candidate [] = []
  /\ resolve_service 100 [v1_0] discovery service_types.registration "local."
       [v1_2; v1_3] (0, 99) false (fun l => l)
     = resolve_service 100 [v1_0]
         (without_rejected 100 [v1_0] service_types.registration [v1_2; v1_3] (0, 99)
            discovery)
         service_types.registration "local." [v1_2; v1_3] (0, 99) false (fun l => l).
Proof.
  intros https_candidate discovery.
  split; [reflexivity|].
  apply (rejected_candidates_dropped 100 [v1_0] discovery service_types.registration
           "local." [v1_2; v1_3] (0, 99) false (fun l => l) https_candidate []).
  reflexivity.
Defined.

(** C4 as stated fails for the node service: its pri is not looked at, so
    a node advertisement outside the band is still resolved to a URI. *)
Lemma node_candidate_outside_band_kept :
  let candidate :=
    Mdns.mk_resolve_result "a" 3212
      ["api_proto=http"; "api_ver=v1.3"; "pri=200"]%string ["10.0.0.1"%string] in
  parse_pri_record 100 (Mdns.parse_txt_records (Mdns.resolved_txt_records candidate)) = 200
  /\ (200 <? 0) || (99 <? 200) = true
  /\ map Uri.to_string
       (resolve_service 100 [v1_0] (discovery_of [candidate]) service_types.node
          "local." [v1_2; v1_3] (0, 99) false (fun l => l))
     = ["http://10.0.0.1:3212/x-nmos/node/v1.3"%string].
Proof.
  repeat split.
Qed.

Lemma parse_api_ver_record_ascending (unspecified : version_set)
    (records : Mdns.structured_txt_records) :
  ascending unspecified -> ascending (parse_api_ver_record unspecified records).
Proof.
  intros Hu. unfold parse_api_ver_record, Mdns.parse_txt_record.
  destruct (find (fun r => String.eqb (fst r) txt_record_keys.api_ver) records);
    [apply set_of_range_ascending | exact Hu].
Qed.

Lemma ends_with_app (s suffix : string) : ends_with suffix (s ++ suffix) = true.
Proof.
  induction s as [|c s IH].
  - simpl. destruct suffix; simpl; rewrite ?String.eqb_refl, ?Ascii.eqb_refl;
      reflexivity.
  - change (String c s ++ suffix)%string with (String c (s ++ suffix)).
    cbn [ends_with]. rewrite IH. apply orb_true_r.
Qed.

(** C5 (as amended).  A candidate that is not rejected adds, for the
    highest version that is both advertised and required, one URI per
    resolved address, of the form http://{ip}:{port}/x-nmos/{api}/{ver};
    so browsing the registration service type with TXT api_ver v1.2,v1.3
    and pri 50, resolved to one address, gives one URI that ends in
    /x-nmos/registration/v1.3. *)
Theorem accepted_candidate_uris
    (no_priority : service_priority) (unspecified : version_set)
    (service : service_type) (api_ver : version_set)
    (priorities : service_priority * service_priority)
    (resolved : Mdns.resolve_result) (results : list resolved_service) :
  ascending unspecified ->
  rejected no_priority unspecified service api_ver priorities resolved = false ->
  (let records := Mdns.parse_txt_records (Mdns.resolved_txt_records resolved) in
   exists ver,
     In ver (parse_api_ver_record unspecified records)
     /\ In ver api_ver
     /\ (forall w, In w (parse_api_ver_record unspecified records) -> In w api_ver ->
                   ltb ver w = false)
     /\ resolve_handler no_priority unspecified service api_ver priorities resolved results
        = (results ++
             map (fun ip =>
                    ((ver, parse_pri_record no_priority records),
                     Uri.mk_uri "http" ip (Mdns.port resolved)
                       ("/x-nmos/" ++ service_api service ++ "/"
                          ++ make_api_version ver)%string))
               (Mdns.ip_addresses resolved))%list
     /\ forall ip,
          Uri.to_string
            (Uri.mk_uri "http" ip (Mdns.port resolved)
               ("/x-nmos/" ++ service_api service ++ "/" ++ make_api_version ver))
          = ("http://" ++ ip ++ ":" ++ put_Z (Mdns.port resolved)
               ++ "/x-nmos/" ++ service_api service ++ "/" ++ make_api_version ver)%string)
  /\ (forall ip port shuffle,
        exists u,
          resolve_service no_priority unspecified
            (discovery_of
               [Mdns.mk_resolve_result "registry" port
                  (Mdns.make_txt_records
                     (make_txt_records service_types.registration 50 [v1_2; v1_3] "http"))
                  [ip]])
            service_types.registration "local." [v1_2; v1_3] (0, 99) false shuffle
          = [u]
          /\ ends_with "/x-nmos/registration/v1.3" (Uri.to_string u) = true).
Proof.
  intros Hu Hrej. split.
  - intros records.
    pose proof (resolve_handler_spec no_priority unspecified service api_ver
                  priorities resolved results) as Hspec.
    cbv zeta in Hspec. fold records in Hspec. rewrite Hrej in Hspec.
    destruct (find_first_of (rev (parse_api_ver_record unspecified records)) (rev api_ver))
      as [ver|] eqn:Efind.
    + destruct (find_first_of_highest _ _
                  (parse_api_ver_record_ascending unspecified records Hu) ver Efind)
        as (Hin & Hin' & Hmax).
      exists ver. repeat split; assumption.
    + exfalso. apply no_common_version in Efind.
      unfold rejected in Hrej. fold records in Hrej.
      rewrite Efind in Hrej. cbn [negb] in Hrej.
      rewrite orb_true_r in Hrej. discriminate.
  - intros ip port shuffle.
    exists (Uri.mk_uri "http" ip port "/x-nmos/registration/v1.3").
    split; [reflexivity|].
    unfold Uri.to_string; cbn [Uri.scheme Uri.host Uri.port Uri.path].
    rewrite <- !append_assoc. apply ends_with_app.
Qed.

Lemma accepted_candidate_uris_witness :
  let candidate :=
    Mdns.mk_resolve_result "registry" 3210
      ["api_proto=http"; "api_ver=v1.1,v1.2"; "pri=50"]%string
      ["10.0.0.1"; "10.0.0.2"]%string in
  exists ver,
    In ver [v1_1; v1_2] /\ In ver [v1_2; v1_3]
    /\ resolve_handler 100 [v1_0] service_types.query [v1_2; v1_3] (0, 99) candidate []
       = [((ver, 50), Uri.mk_uri "http" "10.0.0.1" 3210 ("/x-nmos/query/" ++ make_api_version ver));
          ((ver, 50), Uri.mk_uri "http" "10.0.0.2" 3210 ("/x-nmos/query/" ++ make_api_version ver))].
Proof.
  intros candidate.
  destruct (proj1 (accepted_candidate_uris 100 [v1_0] service_types.query [v1_2; v1_3]
                     (0, 99) candidate [] ltac:(unfold ascending; repeat constructor)
                     eq_refl))
    as (ver & H1 & H2 & _ & H3 & _).
  exists ver. split; [exact H1|]. split; [exact H2|]. exact H3.
Defined.

(** C5 as stated fails for the literal service type _nmos-register._tcp:
    [service_api] knows the node, query and registration types only, and
    the URI gets an empty {api} segment. *)
Lemma browse_register_type_uri :
  let candidate :=
    Mdns.mk_resolve_result "registry" 3210
      (Mdns.make_txt_records
         (make_txt_records "_nmos-register._tcp" 50 [v1_2; v1_3] "http"))
      ["10.0.0.1"%string] in
  map Uri.to_string
    (resolve_service 100 [v1_0] (discovery_of [candidate]) "_nmos-register._tcp"
       "local." [v1_2; v1_3] (0, 99) false (fun l => l))
  = ["http://10.0.0.1:3210/x-nmos//v1.3"%string]
  /\ ends_with "/x-nmos/registration/v1.3" "http://10.0.0.1:3210/x-nmos//v1.3" = false.
Proof.
  split; reflexivity.
Qed.

Lemma registered_types_app (a b : Mdns.service_advertiser) :
  registered_types (a ++ b)%list = (registered_types a ++ registered_types b)%list.
Proof. unfold registered_types. apply flat_map_app. Qed.

Lemma registered_types_addresses (host_name domain : string) (l : list string) :
  registered_types
    (map (fun host_address => Mdns.register_address host_name host_address domain) l)
  = [].
Proof. induction l as [|a l IH]; [reflexivity | exact IH]. Qed.

(** C6.  For the registration service type [register_service] registers
    the instance under _nmos-register._tcp, and before that under the
    registration service type itself (_nmos-registration._tcp) exactly
    when the lowest supported version is below v1.3; for any other
    service type it registers the instance under that type only. *)
Theorem register_service_types
    (advertiser : Mdns.service_advertiser) (service : service_type) (s : settings)
    (lowest : api_version) (others : version_set) :
  is04_versions s = lowest :: others ->
  service_types.registration = "_nmos-registration._tcp"%string
  /\ exists advertiser',
       register_service advertiser service s = Some advertiser'
       /\ registered_types advertiser'
          = (registered_types advertiser ++
               (if String.eqb service_types.registration service then
                  if ltb lowest v1_3
                  then ["_nmos-registration._tcp"; "_nmos-register._tcp"]%string
                  else ["_nmos-register._tcp"%string]
                else [service]))%list.
Proof.
  intros Hver. split; [reflexivity|].
  unfold register_service. cbv zeta. rewrite Hver.
  set (adv :=
         if negb (String.eqb (host_name s) "") then
           (advertiser ++
              map (fun host_address =>
                     Mdns.register_address (host_name s) host_address (domain s))
                match host_addresses s with
                | Some l => l
                | None => [host_address s]
                end)%list
         else advertiser).
  assert (Hadv : registered_types adv = registered_types advertiser).
  { unfold adv. destruct (negb (String.eqb (host_name s) "")); [|reflexivity].
    rewrite registered_types_app, registered_types_addresses.
    apply app_nil_r. }
  destruct (String.eqb service_types.registration service) eqn:E.
  - apply String.eqb_eq in E. subst service.
    destruct (ltb lowest v1_3); eexists; (split; [reflexivity|]);
      rewrite ?registered_types_app, Hadv; cbn [registered_types flat_map app];
      rewrite <- ?app_assoc; reflexivity.
  - eexists. split; [reflexivity|].
    rewrite registered_types_app, Hadv. reflexivity.
Qed.

Lemma register_service_types_witness :
  exists advertiser',
    register_service [] service_types.registration
      (mk_settings "" "local." "10.0.0.1" None 3212 3211 3210 100 [v1_2; v1_3])
    = Some advertiser'
    /\ registered_types advertiser'
       = ["_nmos-registration._tcp"; "_nmos-register._tcp"]%string.
Proof.
  exact (proj2 (register_service_types [] service_types.registration
                  (mk_settings "" "local." "10.0.0.1" None 3212 3211 3210 100 [v1_2; v1_3])
                  v1_2 [v1_3] eq_refl)).
Defined.

End NmosFacts.

(** ** Event type matching *)

Module EventTypeFacts.
Import Stream EventType StreamFacts.

Lemma components_inj (a b : event_type) : components a = components b -> a = b.
Proof.
  intros H.
  assert (Hsep : forall c, Ascii.eqb c "/" = true -> c = "/"%char)
    by (intros c; apply Ascii.eqb_eq).
  rewrite <- (join_split (fun c => Ascii.eqb c "/") "/" a Hsep).
  rewrite <- (join_split (fun c => Ascii.eqb c "/") "/" b Hsep).
  unfold components in H. now rewrite H.
Qed.

Lemma match_components_exact (cs : list string) :
  forall ts,
    String.eqb (last cs "") wildcard = false ->
    match_components cs ts = true -> cs = ts.
Proof.
  induction cs as [|c cs IH]; intros ts Hw Hm.
  - destruct ts; [reflexivity | discriminate].
  - destruct ts as [|t ts]; [destruct cs; discriminate|].
    destruct cs as [|c' cs].
    + destruct ts as [|t' ts].
      * simpl in Hw, Hm. rewrite Hw in Hm. simpl in Hm.
        apply String.eqb_eq in Hm. now subst.
      * simpl in Hm. rewrite andb_false_r in Hm. discriminate.
    + assert (Hm' : String.eqb c t && match_components (c' :: cs) ts = true).
      { destruct ts; exact Hm. }
      apply andb_prop in Hm'. destruct Hm' as [Hc Hrest].
      apply String.eqb_eq in Hc. subst t. f_equal.
      apply IH; [exact Hw | exact Hrest].
Qed.

Lemma match_components_refl (cs : list string) : match_components cs cs = true.
Proof.
  induction cs as [|c cs IH]; [reflexivity|].
  destruct cs as [|c' cs].
  - simpl. rewrite String.eqb_refl. apply orb_true_r.
  - change (String.eqb c c && match_components (c' :: cs) (c' :: cs) = true).
    now rewrite String.eqb_refl, IH.
Qed.

Lemma match_components_cons (c t : string) (cs ts : list string) :
  cs <> [] ->
  match_components (c :: cs) (t :: ts)
  = String.eqb c t && match_components cs ts.
Proof.
  intros Hcs. destruct cs as [|c' cs]; [congruence|].
  destruct ts; reflexivity.
Qed.

(** A subscriber ending with the wildcard matches the component lists made
    of its other components followed by exactly one more. *)
Lemma match_components_wildcard (pre : list string) :
  forall ts,
    match_components (pre ++ [wildcard])%list ts = true
    <-> exists unit, ts = (pre ++ [unit])%list.
Proof.
  induction pre as [|p pre IH]; intros ts.
  - destruct ts as [|t [|t' ts]]; cbn.
    + split; [discriminate | intros [u Hu]; discriminate].
    + split; [intros _; now exists t | reflexivity].
    + rewrite andb_false_r.
      split; [discriminate | intros [u Hu]; discriminate].
  - destruct ts as [|t ts].
    + split; [destruct pre; discriminate | intros [u Hu]; discriminate].
    + change ((p :: pre) ++ [wildcard])%list
        with (p :: (pre ++ [wildcard]))%list.
      rewrite match_components_cons by (destruct pre; discriminate).
      rewrite andb_true_iff, String.eqb_eq, IH.
      split.
      * intros [-> [u ->]]. now exists u.
      * intros [u Hu]. cbn in Hu. injection Hu as -> ->.
        split; [reflexivity | now exists u].
Qed.

Lemma split_aux_append (is_sep : ascii -> bool) (sep : ascii) (s t : string) :
  is_sep sep = true ->
  split_aux is_sep (s ++ String sep t)
  = (fst (split_aux is_sep s), (snd (split_aux is_sep s) ++ split is_sep t)%list).
Proof.
  intros Hsep. induction s as [|c s IH].
  - cbn. rewrite Hsep. unfold split. now destruct (split_aux is_sep t).
  - cbn [append split_aux]. rewrite IH.
    destruct (split_aux is_sep s) as [tok toks]. cbn [fst snd].
    now destruct (is_sep c).
Qed.

Lemma components_append (s t : string) :
  components (s ++ String "/" t) = (components s ++ components t)%list.
Proof.
  unfold components, split at 1 2.
  rewrite (split_aux_append _ "/"%char) by reflexivity.
  now destruct (split_aux (fun c => Ascii.eqb c "/") s).
Qed.

Lemma components_not_nil (s : string) : components s <> [].
Proof.
  unfold components, split.
  now destruct (split_aux (fun c => Ascii.eqb c "/") s).
Qed.

Lemma components_no_slash (s : string) :
  all_chars (fun c => negb (Ascii.eqb c "/")) s = true ->
  components s = [s].
Proof.
  intros H. unfold components, split. now rewrite split_aux_no_sep.
Qed.

(** The components of [base/name/unit] are those of [base/name] followed
    by those of the unit. *)
Lemma components_measurement (base : event_type) (name unit : string) :
  String.eqb unit "" = false ->
  components (measurement base name unit)
  = (components (measurement base name "") ++ components unit)%list.
Proof.
  intros Hu. unfold measurement. rewrite Hu. cbn [String.eqb].
  rewrite <- components_append.
  f_equal. now rewrite !append_assoc.
Qed.

Lemma is_matching_wildcard_tail (capability type : event_type) :
  has_wildcard_tail capability = true ->
  is_matching_event_type capability type = true
  <-> exists unit,
        components type = (removelast (components capability) ++ [unit])%list.
Proof.
  intros Hw. unfold has_wildcard_tail in Hw. apply String.eqb_eq in Hw.
  unfold is_matching_event_type.
  rewrite (app_removelast_last "" (components_not_nil capability)) at 1.
  rewrite Hw. apply match_components_wildcard.
Qed.

(** C2.  A subscriber without a wildcard at its tail matches the
    identical event type and no other.  A subscriber whose tail component
    is the wildcard matches exactly the event types made of its other
    components followed by one more component: [base/name/*] matches
    [base/name/unit] for every unit, and matches neither [base/name], nor
    [base], nor an event type with further components after the unit.
    The cases of testIsMatchingEventType hold: in particular
    number/temperature/* matches number/temperature/C and
    number/temperature/F, and does not match boolean, number or
    number/temperature. *)
Theorem is_matching_event_type_cases :
  (forall capability type : event_type,
     has_wildcard_tail capability = false ->
     is_matching_event_type capability type = String.eqb capability type)
  /\ (forall capability type : event_type,
        has_wildcard_tail capability = true ->
        is_matching_event_type capability type = true
        <-> exists unit,
              components type
              = (removelast (components capability) ++ [unit])%list)
  /\ (forall (base : event_type) (name unit : string),
        unit <> "" ->
        all_chars (fun c => negb (Ascii.eqb c "/")) unit = true ->
        let subscriber := measurement base name wildcard in
        has_wildcard_tail subscriber = true
        /\ is_matching_event_type subscriber (measurement base name unit) = true
        /\ is_matching_event_type subscriber (measurement base name "") = false
        /\ is_matching_event_type subscriber base = false
        /\ (forall more,
              is_matching_event_type subscriber
                (measurement base name unit ++ String "/" more) = false))
  /\ (let temperature := measurement number "temperature" "" in
      let temperature_Celsius := measurement number "temperature" "C" in
      let temperature_Fahrenheit := measurement number "temperature" "F" in
      let temperature_wildcard := measurement number "temperature" wildcard in
      is_matching_event_type boolean boolean = true
      /\ is_matching_event_type boolean number = false
      /\ is_matching_event_type number boolean = false
      /\ is_matching_event_type number number = true
      /\ is_matching_event_type number temperature = false
      /\ is_matching_event_type temperature temperature = true
      /\ is_matching_event_type temperature number = false
      /\ is_matching_event_type temperature temperature_Celsius = false
      /\ is_matching_event_type temperature_Celsius temperature_Celsius = true
      /\ is_matching_event_type temperature_Celsius temperature_Fahrenheit = false
      /\ is_matching_event_type temperature_Fahrenheit temperature_Celsius = false
      /\ is_matching_event_type temperature_Fahrenheit temperature_Fahrenheit = true
      /\ is_matching_event_type temperature_wildcard temperature_Celsius = true
      /\ is_matching_event_type temperature_wildcard temperature_Fahrenheit = true
      /\ is_matching_event_type temperature_wildcard boolean = false
      /\ is_matching_event_type temperature_wildcard number = false
      /\ is_matching_event_type temperature_wildcard temperature = false).
Proof.
  split; [|split; [|split]].
  - intros capability type Hw.
    unfold is_matching_event_type, has_wildcard_tail in *.
    destruct (String.eqb capability type) eqn:E.
    + apply String.eqb_eq in E. subst. apply match_components_refl.
    + apply not_true_iff_false. intros Hm.
      apply match_components_exact in Hm; [|exact Hw].
      apply components_inj in Hm. subst.
      rewrite String.eqb_refl in E. discriminate.
  - exact is_matching_wildcard_tail.
  - intros base name unit Hne Hslash subscriber.
    assert (Hu : String.eqb unit "" = false)
      by (now apply String.eqb_neq).
    assert (Hsub : components subscriber
                   = (components (measurement base name "") ++ [wildcard])%list).
    { unfold subscriber. now rewrite components_measurement. }
    assert (Hpre : components (measurement base name "")
                   = (components base ++ components name)%list).
    { unfold measurement. cbn [String.eqb]. apply components_append. }
    assert (Hw : has_wildcard_tail subscriber = true).
    { unfold has_wildcard_tail. rewrite Hsub, last_last. reflexivity. }
    assert (Hrule : forall type,
              is_matching_event_type subscriber type = true
              <-> exists u, components type
                    = (components (measurement base name "") ++ [u])%list).
    { intros type. rewrite (is_matching_wildcard_tail _ _ Hw).
      now rewrite Hsub, removelast_last. }
    split; [exact Hw|]. split; [|split; [|split]].
    + apply Hrule. exists unit.
      now rewrite components_measurement, (components_no_slash unit).
    + apply not_true_iff_false. intros Hm. apply Hrule in Hm.
      destruct Hm as [u Hm]. apply (f_equal (@List.length string)) in Hm.
      rewrite length_app in Hm. cbn in Hm. lia.
    + apply not_true_iff_false. intros Hm. apply Hrule in Hm.
      destruct Hm as [u Hm]. rewrite Hpre in Hm.
      apply (f_equal (@List.length string)) in Hm.
      rewrite !length_app in Hm. cbn in Hm.
      pose proof (components_not_nil name) as Hn.
      destruct (components name); [congruence | cbn in Hm; lia].
    + intros more. apply not_true_iff_false. intros Hm. apply Hrule in Hm.
      destruct Hm as [u Hm].
      rewrite components_append, components_measurement in Hm by exact Hu.
      rewrite (components_no_slash unit) in Hm by exact Hslash.
      apply (f_equal (@List.length string)) in Hm.
      rewrite !length_app in Hm. cbn in Hm.
      pose proof (components_not_nil more) as Hn.
      destruct (components more); [congruence | cbn in Hm; lia].
  - cbv zeta; repeat split; reflexivity.
Qed.

Lemma is_matching_event_type_cases_witness :
  is_matching_event_type "number/temperature" "number/temperature/C" = false
  /\ (is_matching_event_type "number/temperature/*" "number/temperature/C" = true
      <-> exists unit,
            components "number/temperature/C" = ["number"; "temperature"; unit])
  /\ is_matching_event_type "number/temperature/*" "number/temperature/C" = true
  /\ is_matching_event_type "number/temperature/*" "number/temperature" = false
  /\ is_matching_event_type "number/temperature/*" "number" = false
  /\ is_matching_event_type "number/temperature/*" "number/temperature/C/extra"
     = false.
Proof.
  destruct is_matching_event_type_cases as [Hexact [Hrule [Hunit _]]].
  split; [exact (Hexact "number/temperature" "number/temperature/C" eq_refl)|].
  split; [exact (Hrule "number/temperature/*" "number/temperature/C" eq_refl)|].
  assert (Hne : "C" <> "") by discriminate.
  destruct (Hunit "number" "temperature" "C" Hne eq_refl)
    as [_ [Hc [Ht [Hn Hmore]]]].
  split; [exact Hc|]. split; [exact Ht|]. split; [exact Hn|].
  exact (Hmore "extra").
Defined.

End EventTypeFacts.

(** ** The System API handlers of [/global] *)

Module SystemApiFacts.
Import ApiVersion Exn SystemApi.

(** C9.  PUT /global validates the body.  Without allow_invalid_resources
    a body that fails validation is rejected: the exception leaves the
    handler, nothing is logged by it and the model is as before.  With
    allow_invalid_resources the failure is logged as a warning, the body
    becomes the system global resource, and the reply is 201 Created with
    the body. *)
Theorem put_global_validation
    (validate : api_version -> Json.value -> bool) (model : registry_model)
    (version : string) (body : Json.value) :
  validate (parse_api_version version) body = false ->
  (allow_invalid_resources (settings model) = Returned false ->
   put_global validate model version body = (model, [], Thrown json_exception))
  /\ (allow_invalid_resources (settings model) = Returned true ->
      put_global validate model version body
      = (mk_registry_model (settings model)
           (mk_resource (mk_api_version 1 0) global body true),
         [(warning, "JSON error: "%string)],
         Returned (mk_http_response 201 (Some body)))).
Proof.
  intros Hv. unfold put_global. split; intros Ha; rewrite Ha; cbn [negb];
    rewrite Hv; reflexivity.
Qed.

Lemma put_global_validation_witness :
  let stored := mk_resource (mk_api_version 1 0) global (Json.object []) true in
  let strict := mk_registry_model (Json.object []) stored in
  let lenient :=
    mk_registry_model (Json.object [("allow_invalid_resources"%string, Json.boolean true)])
      stored in
  let validate := fun (_ : api_version) (_ : Json.value) => false in
  put_global validate strict "v1.0" (Json.number 7) = (strict, [], Thrown json_exception)
  /\ put_global validate lenient "v1.0" (Json.number 7)
     = (mk_registry_model (settings lenient)
          (mk_resource (mk_api_version 1 0) global (Json.number 7) true),
        [(warning, "JSON error: "%string)],
        Returned (mk_http_response 201 (Some (Json.number 7)))).
Proof.
  intros stored strict lenient validate. split.
  - exact (proj1 (put_global_validation validate strict "v1.0" (Json.number 7) eq_refl)
             eq_refl).
  - exact (proj2 (put_global_validation validate lenient "v1.0" (Json.number 7) eq_refl)
             eq_refl).
Defined.

(** C10.  GET /global never answers 404: it answers 200 with the data of
    the system global resource when that has data, and 500 when it is not
    configured. *)
Theorem get_global_status (model : registry_model) :
  status_code (fst (get_global model)) <> status_codes.NotFound
  /\ (has_data (system_global_resource model) = true ->
      fst (get_global model)
      = mk_http_response 200 (Some (data (system_global_resource model))))
  /\ (has_data (system_global_resource model) = false ->
      status_code (fst (get_global model)) = 500).
Proof.
  unfold get_global.
  destruct (has_data (system_global_resource model)); cbn [fst status_code].
  - split; [discriminate|]. split; [reflexivity | discriminate].
  - split; [discriminate|]. split; [discriminate | reflexivity].
Qed.

Lemma get_global_status_witness :
  fst (get_global
         (mk_registry_model Json.null
            (mk_resource (mk_api_version 1 0) global (Json.object []) true)))
  = mk_http_response 200 (Some (Json.object []))
  /\ status_code
       (fst (get_global
               (mk_registry_model Json.null
                  (mk_resource (mk_api_version 0 0) global Json.null false))))
     = 500.
Proof.
  split.
  - exact (proj1 (proj2 (get_global_status
             (mk_registry_model Json.null
                (mk_resource (mk_api_version 1 0) global (Json.object []) true)))) eq_refl).
  - exact (proj2 (proj2 (get_global_status
             (mk_registry_model Json.null
                (mk_resource (mk_api_version 0 0) global Json.null false)))) eq_refl).
Defined.

End SystemApiFacts.

(** ** Node start-up *)

Module NodeMainFacts.
Import Exn NodeMain.

Lemma assoc_app (key : string) (fields more : list (string * Json.value)) :
  Json.assoc key (fields ++ more)
  = match Json.assoc key fields with
    | Some v => Some v
    | None => Json.assoc key more
    end.
Proof.
  induction fields as [|[k v] fields IH]; simpl; [reflexivity|].
  destruct (String.eqb k key); [reflexivity | exact IH].
Qed.

(** A field read after [insert]: the value that was there, or else the
    inserted one under the inserted key. *)
Lemma field_insert (v : Json.value) (key key' : string) (x : Json.value) :
  Json.is_object v = true ->
  Json.field (Json.insert v key x) key'
  = match Json.field v key' with
    | Some y => Some y
    | None => if String.eqb key key' then Some x else None
    end.
Proof.
  intros Hv. destruct v as [| | | | |fields]; try discriminate. simpl.
  destruct (Json.assoc key fields) eqn:E.
  - simpl. destruct (Json.assoc key' fields) eqn:E'; [reflexivity|].
    destruct (String.eqb key key') eqn:Ek; [|reflexivity].
    apply String.eqb_eq in Ek. subst. congruence.
  - simpl. rewrite assoc_app. simpl.
    destruct (Json.assoc key' fields); reflexivity.
Qed.

Lemma insert_is_object (v : Json.value) (key : string) (x : Json.value) :
  Json.is_object v = true -> Json.is_object (Json.insert v key x) = true.
Proof.
  intros Hv. destruct v as [| | | | |fields]; try discriminate. simpl.
  destruct (Json.assoc key fields); reflexivity.
Qed.

Lemma field_is_object (v : Json.value) (key : string) (x : Json.value) :
  Json.field v key = Some x -> Json.is_object v = true.
Proof. destruct v; try discriminate. reflexivity. Qed.

Ltac insert_fields :=
  repeat (rewrite field_insert by (repeat apply insert_is_object; assumption)).

Lemma default_ports_field (settings : Json.value) (p : Z) (key : string) :
  Json.field settings fields.http_port = Some (Json.number p) ->
  exists settings',
    default_ports settings = Returned settings'
    /\ Json.is_object settings' = true
    /\ Json.field settings' key
       = match Json.field settings key with
         | Some v => Some v
         | None =>
             if existsb (String.eqb key) defaulted_ports
             then Some (Json.number p) else None
         end.
Proof.
  intros Hp. pose proof (field_is_object _ _ _ Hp) as Hobj.
  unfold default_ports, Json.has_field. rewrite Hp. cbn [as_integer bind].
  eexists. split; [reflexivity|]. split.
  - repeat apply insert_is_object. assumption.
  - insert_fields.
    destruct (Json.field settings key); [reflexivity|].
    unfold defaulted_ports. cbn [existsb].
    rewrite !(String.eqb_sym key).
    destruct (String.eqb fields.registration_port key); [reflexivity|].
    destruct (String.eqb fields.node_port key); [reflexivity|].
    destruct (String.eqb fields.connection_port key); [reflexivity|].
    destruct (String.eqb fields.settings_port key); [reflexivity|].
    destruct (String.eqb fields.logging_port key); reflexivity.
Qed.

(** A setting that main does not give a default of its own, read from
    the prepared settings: the value that was given, or the value of
    http_port when it is one of the defaulted ports. *)
Lemma prepare_settings_field
    (env : environment) (settings prepared : Json.value) (p : Z) (key : string) :
  Json.field settings fields.http_port = Some (Json.number p) ->
  String.eqb fields.seed_id key = false ->
  String.eqb fields.logging_level key = false ->
  String.eqb fields.host_addresses key = false ->
  String.eqb fields.host_address key = false ->
  prepare_settings env settings = Returned prepared ->
  Json.field prepared key
  = match Json.field settings key with
    | Some v => Some v
    | None =>
        if existsb (String.eqb key) defaulted_ports
        then Some (Json.number p) else None
    end.
Proof.
  intros Hp K1 K2 K3 K4. unfold prepare_settings.
  pose proof (field_is_object _ _ _ Hp) as Hobj.
  set (s1 := Json.insert (Json.insert settings fields.seed_id _) fields.logging_level _).
  assert (Hobj1 : Json.is_object s1 = true)
    by (unfold s1; repeat apply insert_is_object; assumption).
  destruct (match Json.field s1 fields.logging_level with
            | Some v => as_integer v
            | None => Returned (level env)
            end) as [lvl|e]; [|discriminate].
  cbn [bind].
  set (s2 := match interface_addresses env with
             | [] => s1
             | _ :: _ => Json.insert s1 fields.host_addresses _
             end).
  assert (Hobj2 : Json.is_object s2 = true).
  { unfold s2. destruct (interface_addresses env); [assumption|].
    now apply insert_is_object. }
  assert (Hf2 : forall k, String.eqb fields.seed_id k = false ->
                          String.eqb fields.logging_level k = false ->
                          String.eqb fields.host_addresses k = false ->
                          Json.field s2 k = Json.field settings k).
  { intros k Hk1 Hk2 Hk3. unfold s2, s1.
    destruct (interface_addresses env); insert_fields;
      rewrite ?Hk1, ?Hk2, ?Hk3; destruct (Json.field settings k); reflexivity. }
  destruct (Json.field s2 fields.host_addresses) as [addresses|].
  - destruct (first_element addresses) as [first|e]; [|discriminate].
    cbn [bind]. intros Hd.
    set (s3 := Json.insert s2 fields.host_address first) in *.
    assert (Hp3 : Json.field s3 fields.http_port = Some (Json.number p)).
    { unfold s3. insert_fields. rewrite Hf2 by reflexivity. now rewrite Hp. }
    destruct (default_ports_field s3 p key Hp3) as (s' & Hs' & _ & Hf).
    rewrite Hs' in Hd. inversion Hd; subst prepared.
    rewrite Hf. unfold s3. insert_fields.
    rewrite Hf2 by assumption. rewrite K4.
    destruct (Json.field settings key); reflexivity.
  - cbn [bind]. intros Hd.
    assert (Hp2 : Json.field s2 fields.http_port = Some (Json.number p)).
    { rewrite Hf2 by reflexivity. exact Hp. }
    destruct (default_ports_field s2 p key Hp2) as (s' & Hs' & _ & Hf).
    rewrite Hs' in Hd. inversion Hd; subst prepared.
    rewrite Hf. rewrite Hf2 by assumption.
    destruct (Json.field settings key); reflexivity.
Qed.

(** C8 (as amended).  When http_port is present, each of
    registration_port, node_port, connection_port, settings_port and
    logging_port that was omitted takes the value of http_port, both in
    the step that defaults the ports and in the settings main has
    prepared, and a port that was given keeps its value; query_port,
    system_port and events_ws_port are left as they were given or
    omitted. *)
Theorem omitted_ports_default_to_http_port
    (env : environment) (settings : Json.value) (p : Z) (key : string) :
  Json.field settings fields.http_port = Some (Json.number p) ->
  In key defaulted_ports ->
  (exists settings',
     default_ports settings = Returned settings'
     /\ Json.field settings' key
        = match Json.field settings key with
          | Some v => Some v
          | None => Some (Json.number p)
          end)
  /\ (forall prepared,
        prepare_settings env settings = Returned prepared ->
        Json.field prepared key
        = match Json.field settings key with
          | Some v => Some v
          | None => Some (Json.number p)
          end)
  /\ (forall prepared other,
        In other [fields.query_port; fields.system_port; fields.events_ws_port] ->
        prepare_settings env settings = Returned prepared ->
        Json.field prepared other = Json.field settings other).
Proof.
  intros Hp Hkey.
  assert (Hex : existsb (String.eqb key) defaulted_ports = true).
  { apply existsb_exists. exists key. split; [assumption | apply String.eqb_refl]. }
  split; [|split].
  - destruct (default_ports_field settings p key Hp) as (s' & Hs' & _ & Hf).
    exists s'. split; [assumption|]. now rewrite Hf, Hex.
  - intros prepared Hprep.
    rewrite (prepare_settings_field env settings prepared p key Hp); try assumption.
    + now rewrite Hex.
    + destruct Hkey as [<-|[<-|[<-|[<-|[<-|[]]]]]]; reflexivity.
    + destruct Hkey as [<-|[<-|[<-|[<-|[<-|[]]]]]]; reflexivity.
    + destruct Hkey as [<-|[<-|[<-|[<-|[<-|[]]]]]]; reflexivity.
    + destruct Hkey as [<-|[<-|[<-|[<-|[<-|[]]]]]]; reflexivity.
  - intros prepared other Hother Hprep.
    rewrite (prepare_settings_field env settings prepared p other Hp); try assumption.
    + destruct Hother as [<-|[<-|[<-|[]]]];
        [ destruct (Json.field settings fields.query_port)
        | destruct (Json.field settings fields.system_port)
        | destruct (Json.field settings fields.events_ws_port) ]; reflexivity.
    + destruct Hother as [<-|[<-|[<-|[]]]]; reflexivity.
    + destruct Hother as [<-|[<-|[<-|[]]]]; reflexivity.
    + destruct Hother as [<-|[<-|[<-|[]]]]; reflexivity.
    + destruct Hother as [<-|[<-|[<-|[]]]]; reflexivity.
Qed.

Lemma omitted_ports_default_to_http_port_witness :
  let env :=
    mk_environment None (fun _ => None) (fun _ => None) "id" 0 ["10.0.0.1"%string]
      (fun _ => Returned tt) in
  let settings :=
    Json.object [("http_port"%string, Json.number 3210);
                 ("logging_port"%string, Json.number 5106)] in
  (exists settings',
     default_ports settings = Returned settings'
     /\ Json.field settings' "node_port" = Some (Json.number 3210))
  /\ match prepare_settings env settings with
     | Returned prepared =>
         Json.field prepared "node_port" = Some (Json.number 3210)
         /\ Json.field prepared "logging_port" = Some (Json.number 5106)
     | Thrown _ => False
     end.
Proof.
  intros env settings.
  pose proof (omitted_ports_default_to_http_port env settings 3210 "node_port"
                eq_refl (or_intror (or_introl eq_refl))) as (Hstep & Hmain & _).
  pose proof (omitted_ports_default_to_http_port env settings 3210 "logging_port"
                eq_refl
                (or_intror (or_intror (or_intror (or_intror (or_introl eq_refl))))))
    as (_ & Hlogging & _).
  split; [exact Hstep|].
  exact (conj (Hmain _ eq_refl) (Hlogging _ eq_refl)).
Defined.

(** C8 as stated fails: with only http_port given, main leaves
    query_port, system_port and events_ws_port out of the settings. *)
Lemma ports_not_defaulted :
  let env :=
    mk_environment None (fun _ => None) (fun _ => None) "id" 0 ["10.0.0.1"%string]
      (fun _ => Returned tt) in
  exists prepared,
    prepare_settings env (Json.object [("http_port"%string, Json.number 3210)])
    = Returned prepared
    /\ Json.field prepared fields.node_port = Some (Json.number 3210)
    /\ Json.field prepared fields.query_port = None
    /\ Json.field prepared fields.system_port = None
    /\ Json.field prepared fields.events_ws_port = None.
Proof.
  eexists. split; [reflexivity|]. repeat split.
Qed.

(** C7 (as amended).  main returns -1 when there is a command-line
    argument that gives a JSON object neither as a literal nor as the
    name of a file; it returns 0 when the node runs until the
    termination signal, and also when an exception ends the run: every
    exception is caught and logged before the common [return 0]. *)
Theorem main_exit_code (env : environment) :
  (forall arg,
     argv1 env = Some arg ->
     (forall v, parse_string env arg = Some v -> Json.is_object v = false) ->
     (forall v, parse_file env arg = Some v -> Json.is_object v = false) ->
     fst (main env) = -1)
  /\ (forall settings prepared,
        command_line_settings env = Some settings ->
        prepare_settings env settings = Returned prepared ->
        run env prepared = Returned tt ->
        main env = (0, [(info, "Starting nmos-cpp node"%string);
                        (info, "Stopping nmos-cpp node"%string)]))
  /\ (forall settings e,
        command_line_settings env = Some settings ->
        (prepared <- prepare_settings env settings ;; run env prepared) = Thrown e ->
        main env = (0, [(info, "Starting nmos-cpp node"%string); handler e;
                        (info, "Stopping nmos-cpp node"%string)])).
Proof.
  split; [|split].
  - intros arg Harg Hlit Hfile. unfold main, command_line_settings. rewrite Harg.
    destruct (parse_string env arg) as [v|].
    + now rewrite (Hlit v eq_refl).
    + destruct (parse_file env arg) as [v|]; [|reflexivity].
      now rewrite (Hfile v eq_refl).
  - intros settings prepared Hs Hp Hr. unfold main. rewrite Hs, Hp.
    cbn [bind]. now rewrite Hr.
  - intros settings e Hs He. unfold main. now rewrite Hs, He.
Qed.

Lemma main_exit_code_witness :
  let bad :=
    mk_environment (Some "[1, 2]"%string) (fun _ => Some (Json.array [Json.number 1; Json.number 2]))
      (fun _ => None) "id" 0 [] (fun _ => Returned tt) in
  let good :=
    mk_environment (Some "{}"%string) (fun _ => Some (Json.object []))
      (fun _ => None) "id" 0 [] (fun _ => Returned tt) in
  fst (main bad) = -1 /\ fst (main good) = 0.
Proof.
  intros bad good. split.
  - apply (proj1 (main_exit_code bad) "[1, 2]"%string eq_refl).
    + intros v Hv. inversion Hv. reflexivity.
    + intros v Hv. discriminate.
  - rewrite (proj1 (proj2 (main_exit_code good)) (Json.object []) _ eq_refl eq_refl eq_refl).
    reflexivity.
Defined.

(** C7 as stated fails: a fault that ends the run as an exception, such
    as a listener that cannot be opened, is caught in main, which then
    returns 0. *)
Lemma main_returns_zero_on_fault :
  let env :=
    mk_environment (Some "{}"%string) (fun _ => Some (Json.object []))
      (fun _ => None) "id" 0 [] (fun _ => Thrown http_exception) in
  main env = (0, [(info, "Starting nmos-cpp node"%string);
                  (error, "HTTP error: "%string);
                  (info, "Stopping nmos-cpp node"%string)]).
Proof.
  reflexivity.
Qed.

End NodeMainFacts.

(** * Further properties of the code *)

(** ** Version sets read from TXT values *)

Module VersionSetFacts.
Import Stream ApiVersion Nmos StreamFacts ApiVersionFacts.

Lemma set_insert_In_iff (v w : api_version) (s : version_set) :
  In w (set_insert v s) <-> w = v \/ In w s.
Proof.
  split; [apply set_insert_In|].
  induction s as [|x s IH]; simpl.
  - intros [->|[]]. now left.
  - destruct (ltb v x) eqn:E1.
    + intros [->|[->|H]]; simpl; auto.
    + destruct (ltb x v) eqn:E2.
      * intros [->|[->|H]]; simpl; auto.
      * assert (v = x) by now apply ltb_total. subst.
        intros [->|[->|H]]; simpl; auto.
Qed.

Lemma fold_set_insert_In (l : list api_version) :
  forall s v,
    In v (fold_left (fun s v => set_insert v s) l s) <-> In v s \/ In v l.
Proof.
  induction l as [|x l IH]; intros s v; simpl.
  - tauto.
  - rewrite IH, set_insert_In_iff. intuition congruence.
Qed.

Lemma set_of_range_In (l : list api_version) (v : api_version) :
  In v (set_of_range l) <-> In v l.
Proof.
  unfold set_of_range. rewrite fold_set_insert_In. simpl. tauto.
Qed.

(** A set is determined by its elements. *)
Lemma ascending_ext (s1 : version_set) :
  forall s2,
    ascending s1 -> ascending s2 ->
    (forall v, In v s1 <-> In v s2) -> s1 = s2.
Proof.
  unfold ascending.
  induction s1 as [|x1 s1 IH]; intros s2 H1 H2 Hin.
  - destruct s2 as [|x2 s2]; [reflexivity|].
    exfalso. apply (Hin x2). now left.
  - destruct s2 as [|x2 s2]; [exfalso; apply (Hin x1); now left|].
    inversion H1 as [|? ? H1' Hx1]; subst.
    inversion H2 as [|? ? H2' Hx2]; subst.
    rewrite Forall_forall in Hx1, Hx2.
    assert (Hx : x1 = x2).
    { destruct (proj1 (Hin x1) (or_introl eq_refl)) as [E|E]; [congruence|].
      destruct (proj2 (Hin x2) (or_introl eq_refl)) as [E'|E']; [congruence|].
      pose proof (Hx2 _ E) as L1. pose proof (Hx1 _ E') as L2.
      rewrite (ltb_asym _ _ L1) in L2. discriminate. }
    subst x2. f_equal. apply IH; try assumption.
    intros v. split; intros Hv.
    + destruct (proj1 (Hin v) (or_intror Hv)) as [E|E]; [|assumption].
      subst v. pose proof (Hx1 _ Hv) as L. rewrite ltb_irrefl in L. discriminate.
    + destruct (proj2 (Hin v) (or_intror Hv)) as [E|E]; [|assumption].
      subst v. pose proof (Hx2 _ Hv) as L. rewrite ltb_irrefl in L. discriminate.
Qed.

(** X1.  Whatever the text of an api_ver TXT value, [parse_api_ver_value]
    gives a set that is strictly ascending, without repetitions, and never
    empty: [split] always yields at least one token, and each token is
    given to [parse_api_version]. *)
Theorem parse_api_ver_value_is_set (api_ver : string) :
  ascending (parse_api_ver_value api_ver)
  /\ NoDup (parse_api_ver_value api_ver)
  /\ parse_api_ver_value api_ver <> [].
Proof.
  assert (Hasc : ascending (parse_api_ver_value api_ver))
    by apply set_of_range_ascending.
  split; [exact Hasc|]. split.
  - unfold ascending in Hasc.
    induction Hasc as [|x s Hs IH Hx]; constructor; [|exact IH].
    intros Hin. rewrite Forall_forall in Hx.
    pose proof (Hx x Hin) as L. rewrite ltb_irrefl in L. discriminate.
  - unfold parse_api_ver_value, split.
    destruct (split_aux (fun c => Ascii.eqb "," c) api_ver) as [tok toks].
    cbn [map]. intros Hnil.
    assert (Hin : In (parse_api_version tok)
                    (set_of_range (parse_api_version tok :: map parse_api_version toks)))
      by (apply set_of_range_In; now left).
    rewrite Hnil in Hin. destruct Hin.
Qed.

(** X2.  The versions of an api_ver TXT value may come in any order and
    more than once ("ascending order is recommended, not required"):
    [parse_api_ver_value] gives exactly the versions listed, and the same
    set for two lists of the same versions. *)
Theorem parse_api_ver_value_any_order (listed listed' : list api_version) :
  listed <> [] -> listed' <> [] ->
  (forall v, In v listed <-> In v listed') ->
  (forall v,
     In v (parse_api_ver_value (join "," (map make_api_version listed)))
     <-> In v listed)
  /\ parse_api_ver_value (join "," (map make_api_version listed))
     = parse_api_ver_value (join "," (map make_api_version listed')).
Proof.
  intros Hne Hne' Hsame.
  assert (Hparse : forall l, l <> [] ->
            parse_api_ver_value (join "," (map make_api_version l)) = set_of_range l).
  { intros l Hl. unfold parse_api_ver_value.
    rewrite (split_join (fun c => Ascii.eqb "," c) ",").
    - now rewrite NmosFacts.map_parse_make_api_version.
    - reflexivity.
    - destruct l; [congruence | discriminate].
    - rewrite Forall_forall. intros s Hs. apply in_map_iff in Hs.
      destruct Hs as (v & <- & _). apply make_api_version_no_comma. }
  rewrite !Hparse by assumption. split.
  - intros v. apply set_of_range_In.
  - apply ascending_ext; try apply set_of_range_ascending.
    intros v. rewrite !set_of_range_In. apply Hsame.
Qed.

Lemma parse_api_ver_value_any_order_witness :
  parse_api_ver_value "v1.3,v1.2,v1.3" = parse_api_ver_value "v1.2,v1.3"
  /\ (In v1_2 (parse_api_ver_value "v1.3,v1.2,v1.3") <-> In v1_2 [v1_3; v1_2; v1_3]).
Proof.
  assert (Hsame : forall v, In v [v1_3; v1_2; v1_3] <-> In v [v1_2; v1_3])
    by (intros v; simpl; tauto).
  destruct (parse_api_ver_value_any_order [v1_3; v1_2; v1_3] [v1_2; v1_3]
              ltac:(discriminate) ltac:(discriminate) Hsame) as [Hin Heq].
  split; [exact Heq | exact (Hin v1_2)].
Defined.

End VersionSetFacts.

(** ** Advertising: [service_name], [register_service], [update_service] *)

Module AdvertiseFacts.
Import Stream ApiVersion Nmos StreamFacts ApiVersionFacts NmosFacts.

Lemma cut_at_equals_make (k v : string) :
  all_chars (fun c => negb (Ascii.eqb c "=")) k = true ->
  Mdns.cut_at_equals (k ++ String "=" v) = (k, v).
Proof.
  induction k as [|c k IH]; simpl; [reflexivity|].
  intros H. apply andb_prop in H. destruct H as [Hc Hk].
  apply negb_true_iff in Hc. rewrite Hc. now rewrite (IH Hk).
Qed.

Lemma parse_make_txt_cons (k v : string) (records : Mdns.structured_txt_records) :
  all_chars (fun c => negb (Ascii.eqb c "=")) k = true ->
  Mdns.parse_txt_records (Mdns.make_txt_records ((k, v) :: records))
  = (k, v) :: Mdns.parse_txt_records (Mdns.make_txt_records records).
Proof.
  intros Hk. unfold Mdns.parse_txt_records, Mdns.make_txt_records.
  cbn [map fst snd]. now rewrite cut_at_equals_make.
Qed.

Ltac txt_cut := repeat (rewrite parse_make_txt_cons by reflexivity).

(** X3.  The TXT records [update_service] advertises always begin with
    the service's own records: read back, they give http, the supported
    versions and (but for the node service) the priority of the settings,
    whatever additional records are passed, even ones with the same
    keys. *)
Theorem update_service_keeps_service_records
    (no_priority : service_priority) (unspecified : version_set)
    (advertiser : Mdns.service_advertiser) (service : service_type) (s : settings)
    (add_records : Mdns.structured_txt_records) :
  is04_versions s <> [] -> ascending (is04_versions s) ->
  int_min <= pri s <= int_max ->
  exists txt,
    update_service advertiser service s add_records
    = (advertiser ++
         [Mdns.update_record (service_name service s) service (domain s) txt])%list
    /\ parse_api_proto_record (Mdns.parse_txt_records txt) = "http"%string
    /\ parse_api_ver_record unspecified (Mdns.parse_txt_records txt) = is04_versions s
    /\ (String.eqb service service_types.node = false ->
        parse_pri_record no_priority (Mdns.parse_txt_records txt) = pri s).
Proof.
  intros Hne Hasc Hpri. eexists. split; [reflexivity|].
  unfold make_txt_records.
  destruct (String.eqb service service_types.node);
    unfold txt_record_keys.api_proto, txt_record_keys.api_ver, txt_record_keys.pri;
    cbn [app]; txt_cut.
  - split; [|split].
    + unfold parse_api_proto_record, txt_record_keys.api_proto. txt_lookup. reflexivity.
    + unfold parse_api_ver_record, txt_record_keys.api_ver. txt_lookup.
      now apply parse_make_api_ver_value.
    + discriminate.
  - split; [|split].
    + unfold parse_api_proto_record, txt_record_keys.api_proto. txt_lookup. reflexivity.
    + unfold parse_api_ver_record, txt_record_keys.api_ver. txt_lookup.
      now apply parse_make_api_ver_value.
    + intros _. unfold parse_pri_record, txt_record_keys.pri. txt_lookup.
      now apply parse_make_pri_value.
Qed.

Lemma update_service_keeps_service_records_witness :
  exists txt,
    update_service [] service_types.query
      (mk_settings "" "local." "10.0.0.1" None 3212 3211 3210 70 [v1_2; v1_3])
      [("pri", "1"); ("api_ver", "v9.9")]%string
    = [Mdns.update_record "nmos-cpp_query_10-0-0-1:3211" service_types.query "local." txt]
    /\ parse_api_ver_record [v1_0] (Mdns.parse_txt_records txt) = [v1_2; v1_3]
    /\ parse_pri_record 100 (Mdns.parse_txt_records txt) = 70.
Proof.
  destruct (update_service_keeps_service_records 100 [v1_0] [] service_types.query
              (mk_settings "" "local." "10.0.0.1" None 3212 3211 3210 70 [v1_2; v1_3])
              [("pri", "1"); ("api_ver", "v9.9")]%string
              ltac:(discriminate) ltac:(unfold ascending; repeat constructor)
              ltac:(unfold int_min, int_max; simpl; lia))
    as (txt & Hcall & _ & Hver & Hpri).
  exists txt. split; [exact Hcall|]. split; [exact Hver | exact (Hpri eq_refl)].
Defined.

(** X4.  The node's counters travel through [update_service]: when the
    additional records are those of [make_ver_records], [parse_ver_records]
    reads the same counters from the advertised TXT records, for every
    service type. *)
Theorem update_service_ver_records_round_trip
    (advertiser : Mdns.service_advertiser) (service : service_type) (s : settings)
    (ver : api_resource_versions) :
  valid_versions ver ->
  exists txt,
    update_service advertiser service s (make_ver_records ver)
    = (advertiser ++
         [Mdns.update_record (service_name service s) service (domain s) txt])%list
    /\ parse_ver_records (Mdns.parse_txt_records txt) = ver.
Proof.
  intros (Hself & Hdev & Hsrc & Hflw & Hsnd & Hrcv).
  eexists. split; [reflexivity|].
  destruct ver as [vself vdev vsrc vflw vsnd vrcv]; simpl in *.
  unfold make_txt_records, make_ver_records.
  destruct (String.eqb service service_types.node);
    unfold txt_record_keys.api_proto, txt_record_keys.api_ver, txt_record_keys.pri,
      txt_record_keys.ver_slf, txt_record_keys.ver_src, txt_record_keys.ver_flw,
      txt_record_keys.ver_dvc, txt_record_keys.ver_snd, txt_record_keys.ver_rcv;
    cbn [app self devices sources flows senders receivers]; txt_cut;
    unfold parse_ver_records,
      txt_record_keys.ver_slf, txt_record_keys.ver_src, txt_record_keys.ver_flw,
      txt_record_keys.ver_dvc, txt_record_keys.ver_snd, txt_record_keys.ver_rcv;
    txt_lookup; now rewrite !parse_make_ver_value.
Qed.

Lemma update_service_ver_records_round_trip_witness :
  exists txt,
    update_service [] service_types.node
      (mk_settings "" "local." "10.0.0.1" None 3212 3211 3210 100 [v1_2; v1_3])
      (make_ver_records (mk_api_resource_versions 1 2 3 4 255 0))
    = [Mdns.update_record "nmos-cpp_node_10-0-0-1:3212" service_types.node "local." txt]
    /\ parse_ver_records (Mdns.parse_txt_records txt)
       = mk_api_resource_versions 1 2 3 4 255 0.
Proof.
  exact (update_service_ver_records_round_trip [] service_types.node
           (mk_settings "" "local." "10.0.0.1" None 3212 3211 3210 100 [v1_2; v1_3])
           (mk_api_resource_versions 1 2 3 4 255 0)
           ltac:(unfold valid_versions, api_resource_version_modulus; simpl; lia)).
Defined.

Lemma replace_char_removes (from to : ascii) (s : string) :
  Ascii.eqb to from = false ->
  all_chars (fun c => negb (Ascii.eqb c from)) (replace_char from to s) = true.
Proof.
  intros Hne. induction s as [|c s IH]; [reflexivity|].
  cbn [replace_char all_chars]. rewrite IH, andb_true_r.
  destruct (Ascii.eqb c from) eqn:E; [now rewrite Hne | now rewrite E].
Qed.

(** X5.  An instance name made by [service_name] never holds a dot,
    whatever the service type, the host address and the port. *)
Theorem service_name_has_no_dot (service : service_type) (s : settings) :
  all_chars (fun c => negb (Ascii.eqb c ".")) (service_name service s) = true.
Proof.
  unfold service_name. now apply replace_char_removes.
Qed.

(** The calls [register_service] makes, written out. *)
Lemma register_service_calls
    (advertiser : Mdns.service_advertiser) (service : service_type) (s : settings)
    (lowest : api_version) (others : version_set) :
  is04_versions s = lowest :: others ->
  register_service advertiser service s
  = Some
      (advertiser ++
         (if String.eqb (host_name s) "" then []
          else map (fun a => Mdns.register_address (host_name s) a (domain s))
                 match host_addresses s with
                 | Some l => l
                 | None => [host_address s]
                 end) ++
         map (fun type =>
                Mdns.register_service (service_name service s) type
                  (service_port service s mod 65536) (domain s) (host_name s)
                  (Mdns.make_txt_records
                     (make_txt_records service (pri s) (is04_versions s)
                        service_protocols.http)))
           (if String.eqb service_types.registration service then
              if ltb lowest v1_3 then [service; "_nmos-register._tcp"%string]
              else ["_nmos-register._tcp"%string]
            else [service]))%list.
Proof.
  intros Hver. unfold register_service. cbv zeta. rewrite Hver.
  destruct (String.eqb (host_name s) ""); cbn [negb];
    destruct (String.eqb service_types.registration service);
    try destruct (ltb lowest v1_3); cbn [map app];
    rewrite <- ?app_assoc, ?app_nil_r; reflexivity.
Qed.

Lemma registered_addresses_app (a b : Mdns.service_advertiser) :
  registered_addresses (a ++ b)%list
  = (registered_addresses a ++ registered_addresses b)%list.
Proof. unfold registered_addresses. apply flat_map_app. Qed.

Lemma registered_addresses_map (host_name domain : string) (l : list string) :
  registered_addresses (map (fun a => Mdns.register_address host_name a domain) l) = l.
Proof.
  induction l as [|a l IH]; [reflexivity|].
  cbn [map]. change (registered_addresses (?c :: ?r)) with
    (registered_addresses [c] ++ registered_addresses r)%list.
  simpl. now rewrite IH.
Qed.

Lemma registered_addresses_services {T : Type} (f : T -> Mdns.advertiser_call)
    (l : list T) :
  (forall t, exists n ty p d h txt, f t = Mdns.register_service n ty p d h txt) ->
  registered_addresses (map f l) = [].
Proof.
  intros Hf. induction l as [|t l IH]; [reflexivity|].
  cbn [map]. unfold registered_addresses in *. cbn [flat_map]. rewrite IH.
  destruct (Hf t) as (n & ty & p & d & h & txt & ->). reflexivity.
Qed.

(** X6.  [register_service] keeps every call the advertiser already
    received and adds its own after them.  It registers no address when
    host_name is empty; otherwise it registers each of host_addresses, in
    their order, when that setting is present - none at all when it is an
    empty list - and host_address alone when it is absent.  Each service
    it registers has a port between 0 and 65535. *)
Theorem register_service_addresses
    (advertiser : Mdns.service_advertiser) (service : service_type) (s : settings)
    (lowest : api_version) (others : version_set) :
  is04_versions s = lowest :: others ->
  exists calls,
    register_service advertiser service s = Some (advertiser ++ calls)%list
    /\ registered_addresses calls
       = (if String.eqb (host_name s) "" then []
          else match host_addresses s with
               | Some l => l
               | None => [host_address s]
               end)
    /\ Forall (fun c =>
                 match c with
                 | Mdns.register_service _ _ port _ _ _ => 0 <= port <= 65535
                 | _ => True
                 end) calls.
Proof.
  intros Hver. rewrite (register_service_calls _ _ _ _ _ Hver).
  eexists. split; [reflexivity|]. split.
  - rewrite registered_addresses_app.
    rewrite registered_addresses_services by (intros t; repeat eexists).
    rewrite app_nil_r.
    destruct (String.eqb (host_name s) ""); [reflexivity|].
    apply registered_addresses_map.
  - apply Forall_app. split.
    + destruct (String.eqb (host_name s) ""); [constructor|].
      rewrite Forall_forall. intros c Hc. apply in_map_iff in Hc.
      destruct Hc as (a & <- & _). exact I.
    + rewrite Forall_forall. intros c Hc. apply in_map_iff in Hc.
      destruct Hc as (ty & <- & _).
      pose proof (Z.mod_pos_bound (service_port service s) 65536 ltac:(lia)). lia.
Qed.

Lemma register_service_addresses_witness :
  exists calls,
    register_service [Mdns.register_address "h" "10.0.0.9" "local."] service_types.node
      (mk_settings "h" "local." "10.0.0.1" (Some []) 70000 3211 3210 100 [v1_3])
    = Some ([Mdns.register_address "h" "10.0.0.9" "local."] ++ calls)%list
    /\ registered_addresses calls = []
    /\ Forall (fun c =>
                 match c with
                 | Mdns.register_service _ _ port _ _ _ => 0 <= port <= 65535
                 | _ => True
                 end) calls.
Proof.
  exact (register_service_addresses [Mdns.register_address "h" "10.0.0.9" "local."]
           service_types.node
           (mk_settings "h" "local." "10.0.0.1" (Some []) 70000 3211 3210 100 [v1_3])
           v1_3 [] eq_refl).
Defined.

Lemma registered_types_map (name : string) (port : Z) (domain host_name : string)
    (txt : Mdns.txt_records) (types : list string) :
  registered_types
    (map (fun type => Mdns.register_service name type port domain host_name txt) types)
  = types.
Proof.
  induction types as [|t types IH]; [reflexivity|].
  cbn [map]. unfold registered_types in *. cbn [flat_map]. now rewrite IH.
Qed.

(** X7.  [update_service] updates the record of the service type it is
    given, under the instance name and domain [register_service] used.
    That record is one [register_service] registered, except for the
    registration service when the lowest supported version is not below
    v1.3: then only _nmos-register._tcp was registered, and the update
    is addressed to _nmos-registration._tcp. *)
Theorem update_service_target
    (service : service_type) (s : settings)
    (lowest : api_version) (others : version_set)
    (add_records : Mdns.structured_txt_records) :
  is04_versions s = lowest :: others ->
  exists registered txt,
    register_service [] service s = Some registered
    /\ update_service registered service s add_records
       = (registered ++
            [Mdns.update_record (service_name service s) service (domain s) txt])%list
    /\ Forall (fun c =>
                 match c with
                 | Mdns.register_service name _ _ domain _ _ =>
                     name = service_name service s /\ domain = Nmos.domain s
                 | _ => True
                 end) registered
    /\ (In service (registered_types registered)
        <-> ~ (service = service_types.registration /\ ltb lowest v1_3 = false)).
Proof.
  intros Hver. rewrite (register_service_calls _ _ _ _ _ Hver).
  eexists. eexists. split; [reflexivity|]. split; [reflexivity|]. split.
  - cbn [app]. apply Forall_app. split.
    + destruct (String.eqb (host_name s) ""); [constructor|].
      rewrite Forall_forall. intros c Hc. apply in_map_iff in Hc.
      destruct Hc as (a & <- & _). exact I.
    + rewrite Forall_forall. intros c Hc. apply in_map_iff in Hc.
      destruct Hc as (ty & <- & _). split; reflexivity.
  - cbn [app]. rewrite registered_types_app, registered_types_map.
    assert (Hsame : forall types : list string,
              (registered_types
                 (if String.eqb (host_name s) "" then []
                  else map (fun a => Mdns.register_address (host_name s) a (domain s))
                         match host_addresses s with
                         | Some l => l
                         | None => [host_address s]
                         end) ++ types)%list = types).
    { intros types. destruct (String.eqb (host_name s) ""); [reflexivity|].
      now rewrite registered_types_addresses. }
    rewrite Hsame.
    destruct (String.eqb service_types.registration service) eqn:E.
    + apply String.eqb_eq in E. subst service.
      destruct (ltb lowest v1_3); split.
      * intros _ [_ H]. discriminate.
      * intros _. now left.
      * intros [H|[]]. discriminate.
      * intros H. exfalso. apply H. split; reflexivity.
    + apply String.eqb_neq in E. split.
      * intros _ [H _]. congruence.
      * intros _. now left.
Qed.

Lemma update_service_target_witness :
  exists registered txt,
    register_service [] service_types.registration
      (mk_settings "" "local." "10.0.0.1" None 3212 3211 3210 100 [v1_3])
    = Some registered
    /\ update_service registered service_types.registration
         (mk_settings "" "local." "10.0.0.1" None 3212 3211 3210 100 [v1_3]) []
       = (registered ++
            [Mdns.update_record "nmos-cpp_registration_10-0-0-1:3210"
               "_nmos-registration._tcp" "local." txt])%list
    /\ ~ In service_types.registration (registered_types registered).
Proof.
  destruct (update_service_target service_types.registration
              (mk_settings "" "local." "10.0.0.1" None 3212 3211 3210 100 [v1_3])
              v1_3 [] [] eq_refl)
    as (registered & txt & Hreg & Hupd & _ & Hin).
  exists registered, txt. split; [exact Hreg|]. split; [exact Hupd|].
  intros H. apply (proj1 Hin H). split; reflexivity.
Defined.

End AdvertiseFacts.

(** ** Resolving: what [resolve_service] collects and returns *)

Module ResolveFacts.
Import Stream ApiVersion Nmos StreamFacts ApiVersionFacts SortFacts NmosFacts.

Section Resolver.

Variable no_priority : service_priority.
Variable unspecified : version_set.
Variable service : service_type.
Variable api_ver : version_set.
Variable priorities : service_priority * service_priority.

Let handler := resolve_handler no_priority unspecified service api_ver priorities.
Let is_rejected := rejected no_priority unspecified service api_ver priorities.

Lemma resolve_handler_append (resolved : Mdns.resolve_result)
    (results : list resolved_service) :
  handler resolved results = (results ++ handler resolved [])%list.
Proof.
  unfold handler. rewrite !resolve_handler_spec.
  destruct (rejected no_priority unspecified service api_ver priorities resolved);
    [now rewrite app_nil_r|].
  destruct (find_first_of _ _); [reflexivity | now rewrite app_nil_r].
Qed.

Lemma fold_left_append {A B : Type} (f : A -> list B -> list B) (g : A -> list B)
    (l : list A) :
  (forall a acc, f a acc = (acc ++ g a)%list) ->
  forall acc, fold_left (fun acc a => f a acc) l acc = (acc ++ flat_map g l)%list.
Proof.
  intros Hf. induction l as [|a l IH]; intros acc; simpl.
  - now rewrite app_nil_r.
  - rewrite IH, Hf. now rewrite <- app_assoc.
Qed.

Lemma browse_results_flat (discovery : Mdns.service_discovery) (browse_domain : string) :
  browse_results no_priority unspecified discovery service browse_domain api_ver priorities
  = flat_map (fun resolving =>
                flat_map (fun resolved => handler resolved [])
                  (Mdns.resolve discovery resolving))
      (Mdns.browse discovery service browse_domain).
Proof.
  unfold browse_results.
  rewrite (fold_left_append
             (browse_handler no_priority unspecified discovery service api_ver priorities)
             (fun resolving =>
                flat_map (fun resolved => handler resolved [])
                  (Mdns.resolve discovery resolving))).
  - reflexivity.
  - intros resolving acc. unfold browse_handler.
    apply (fold_left_append
             (resolve_handler no_priority unspecified service api_ver priorities)
             (fun resolved => handler resolved [])).
    intros resolved acc'. apply resolve_handler_append.
Qed.

(** What one candidate adds: nothing when rejected, otherwise one entry
    per address for the version [find_first_of] selects. *)
Lemma In_resolve_handler (x : resolved_service) (resolved : Mdns.resolve_result) :
  let records := Mdns.parse_txt_records (Mdns.resolved_txt_records resolved) in
  In x (handler resolved [])
  <-> is_rejected resolved = false
      /\ exists ver ip,
           find_first_of (rev (parse_api_ver_record unspecified records)) (rev api_ver)
           = Some ver
           /\ In ip (Mdns.ip_addresses resolved)
           /\ x = ((ver, parse_pri_record no_priority records),
                   Uri.mk_uri "http" ip (Mdns.port resolved)
                     ("/x-nmos/" ++ service_api service ++ "/" ++ make_api_version ver)).
Proof.
  intros records. unfold handler, is_rejected. rewrite resolve_handler_spec.
  fold records.
  destruct (rejected no_priority unspecified service api_ver priorities resolved).
  - split; [intros [] | intros [H _]; discriminate].
  - destruct (find_first_of (rev (parse_api_ver_record unspecified records)) (rev api_ver))
      as [ver|].
    + cbn [app]. rewrite in_map_iff. split.
      * intros (ip & <- & Hip). split; [reflexivity|]. exists ver, ip. auto.
      * intros (_ & ver' & ip & Hv & Hip & ->). inversion Hv; subst ver'.
        exists ip. auto.
    + split; [intros [] | intros (_ & ver & ip & Hv & _); discriminate].
Qed.

Lemma find_first_of_common (resolved_vers ver_set : version_set) (ver : api_version) :
  find_first_of (rev resolved_vers) (rev ver_set) = Some ver ->
  In ver resolved_vers /\ In ver ver_set.
Proof.
  unfold find_first_of. intros H. apply find_some in H. destruct H as [H1 H2].
  rewrite <- in_rev in H1. apply existsb_eqb_In in H2. rewrite <- in_rev in H2.
  auto.
Qed.

Lemma not_rejected_selects (resolved : Mdns.resolve_result) :
  is_rejected resolved = false ->
  exists ver,
    find_first_of
      (rev (parse_api_ver_record unspecified
              (Mdns.parse_txt_records (Mdns.resolved_txt_records resolved))))
      (rev api_ver) = Some ver.
Proof.
  unfold is_rejected, rejected. intros H.
  destruct (find_first_of _ _) as [ver|] eqn:E; [now exists ver|].
  exfalso. apply no_common_version in E. rewrite E in H.
  cbn [negb] in H. rewrite orb_true_r in H. discriminate.
Qed.

Lemma not_rejected_band (resolved : Mdns.resolve_result) :
  is_rejected resolved = false ->
  String.eqb service service_types.node = false ->
  fst priorities
  <= parse_pri_record no_priority
       (Mdns.parse_txt_records (Mdns.resolved_txt_records resolved))
  <= snd priorities.
Proof.
  unfold is_rejected, rejected. intros H Hnode.
  apply orb_false_elim in H. destruct H as [_ H].
  rewrite Hnode in H. cbn [negb andb] in H. apply negb_false_iff in H.
  apply andb_prop in H. destruct H as [H1 H2].
  apply Z.leb_le in H1. apply Z.leb_le in H2. lia.
Qed.

End Resolver.

Lemma In_resolve_service
    (no_priority : service_priority) (unspecified : version_set)
    (discovery : Mdns.service_discovery) (service : service_type)
    (browse_domain : string) (api_ver : version_set)
    (priorities : service_priority * service_priority) (randomize : bool)
    (shuffle : list resolved_service -> list resolved_service) (u : Uri.uri) :
  (forall l, Permutation l (shuffle l)) ->
  In u (resolve_service no_priority unspecified discovery service browse_domain
          api_ver priorities randomize shuffle)
  <-> exists x,
        In x (browse_results no_priority unspecified discovery service browse_domain
                api_ver priorities)
        /\ snd x = u.
Proof.
  intros Hshuffle. unfold resolve_service, rank_results.
  set (results := browse_results _ _ _ _ _ _ _).
  rewrite in_map_iff.
  assert (Hperm : Permutation results
            (stable_sort resolved_service_less
               (if randomize then shuffle results else results))).
  { eapply perm_trans; [|apply stable_sort_perm].
    destruct randomize; [apply Hshuffle | apply Permutation_refl]. }
  split; intros (x & Hx & Hin); exists x; split; auto.
  - eapply Permutation_in; [apply Permutation_sym, Hperm | exact Hin].
  - eapply Permutation_in; [apply Hperm | exact Hx].
Qed.

Lemma In_browse_results
    (no_priority : service_priority) (unspecified : version_set)
    (discovery : Mdns.service_discovery) (service : service_type)
    (browse_domain : string) (api_ver : version_set)
    (priorities : service_priority * service_priority) (x : resolved_service) :
  In x (browse_results no_priority unspecified discovery service browse_domain
          api_ver priorities)
  <-> exists resolving resolved,
        In resolving (Mdns.browse discovery service browse_domain)
        /\ In resolved (Mdns.resolve discovery resolving)
        /\ In x (resolve_handler no_priority unspecified service api_ver priorities
                   resolved []).
Proof.
  rewrite browse_results_flat, in_flat_map. split.
  - intros (resolving & Hb & Hx). apply in_flat_map in Hx.
    destruct Hx as (resolved & Hr & Hx). exists resolving, resolved. auto.
  - intros (resolving & resolved & Hb & Hr & Hx). exists resolving.
    split; [assumption|]. apply in_flat_map. exists resolved. auto.
Qed.

(** X8.  The results are the concatenation, in the order of discovery, of
    what each resolve result adds by itself: nothing is merged, dropped or
    de-duplicated along the way.  A candidate adds one entry per resolved
    address when it is accepted and none when it is rejected. *)
Theorem browse_results_concatenation
    (no_priority : service_priority) (unspecified : version_set)
    (discovery : Mdns.service_discovery) (service : service_type)
    (browse_domain : string) (api_ver : version_set)
    (priorities : service_priority * service_priority) :
  browse_results no_priority unspecified discovery service browse_domain api_ver priorities
  = flat_map (fun resolving =>
                flat_map (fun resolved =>
                            resolve_handler no_priority unspecified service api_ver
                              priorities resolved [])
                  (Mdns.resolve discovery resolving))
      (Mdns.browse discovery service browse_domain)
  /\ forall resolved,
       List.length (resolve_handler no_priority unspecified service api_ver priorities
                      resolved [])
       = if rejected no_priority unspecified service api_ver priorities resolved
         then 0%nat
         else List.length (Mdns.ip_addresses resolved).
Proof.
  split; [apply browse_results_flat|].
  intros resolved. rewrite resolve_handler_spec.
  destruct (rejected no_priority unspecified service api_ver priorities resolved) eqn:E;
    [reflexivity|].
  destruct (not_rejected_selects _ _ _ _ _ resolved E) as (ver & ->).
  cbn [app]. apply length_map.
Qed.

(** X9.  Every URI [resolve_service] returns, randomized or not, comes
    from a candidate that was delivered and not rejected: its scheme is
    http, its host one of the candidate's addresses, its port the
    candidate's, and its path /x-nmos/{api}/{ver} for a version that the
    caller requires and the candidate advertises. *)
Theorem resolve_service_returns_accepted
    (no_priority : service_priority) (unspecified : version_set)
    (discovery : Mdns.service_discovery) (service : service_type)
    (browse_domain : string) (api_ver : version_set)
    (priorities : service_priority * service_priority) (randomize : bool)
    (shuffle : list resolved_service -> list resolved_service) (u : Uri.uri) :
  (forall l, Permutation l (shuffle l)) ->
  In u (resolve_service no_priority unspecified discovery service browse_domain
          api_ver priorities randomize shuffle) ->
  exists resolving resolved ver,
    In resolving (Mdns.browse discovery service browse_domain)
    /\ In resolved (Mdns.resolve discovery resolving)
    /\ rejected no_priority unspecified service api_ver priorities resolved = false
    /\ In ver api_ver
    /\ In ver (parse_api_ver_record unspecified
                 (Mdns.parse_txt_records (Mdns.resolved_txt_records resolved)))
    /\ In (Uri.host u) (Mdns.ip_addresses resolved)
    /\ u = Uri.mk_uri "http" (Uri.host u) (Mdns.port resolved)
             ("/x-nmos/" ++ service_api service ++ "/" ++ make_api_version ver).
Proof.
  intros Hshuffle Hu.
  apply (In_resolve_service _ _ _ _ _ _ _ _ _ _ Hshuffle) in Hu.
  destruct Hu as (x & Hx & <-).
  apply In_browse_results in Hx.
  destruct Hx as (resolving & resolved & Hb & Hr & Hx).
  apply In_resolve_handler in Hx.
  destruct Hx as (Hrej & ver & ip & Hfind & Hip & ->).
  apply find_first_of_common in Hfind. destruct Hfind as [Hadv Hreq].
  exists resolving, resolved, ver. cbn [snd Uri.host]. repeat split; assumption.
Qed.

Lemma resolve_service_returns_accepted_witness :
  let candidate :=
    Mdns.mk_resolve_result "registry" 3210
      ["api_proto=http"; "api_ver=v1.1,v1.2"; "pri=50"]%string
      ["10.0.0.1"; "10.0.0.2"]%string in
  exists resolved ver,
    In resolved [candidate]
    /\ In ver [v1_2; v1_3]
    /\ Uri.mk_uri "http" "10.0.0.2" 3210 "/x-nmos/query/v1.2"
       = Uri.mk_uri "http" "10.0.0.2" (Mdns.port resolved)
           ("/x-nmos/query/" ++ make_api_version ver).
Proof.
  intros candidate.
  destruct (resolve_service_returns_accepted 100 [v1_0] (discovery_of [candidate])
              service_types.query "local." [v1_2; v1_3] (0, 99) true (@rev _)
              (Uri.mk_uri "http" "10.0.0.2" 3210 "/x-nmos/query/v1.2")
              (fun l => Permutation_rev l) (or_introl eq_refl))
    as (resolving & resolved & ver & _ & Hr & _ & Hv & _ & _ & Hu).
  cbn [discovery_of Mdns.resolve] in Hr. apply filter_In in Hr.
  exists resolved, ver. split; [exact (proj1 Hr)|]. split; [exact Hv | exact Hu].
Defined.

(** X10.  No accepted candidate is lost: for every address of every
    delivered candidate that is not rejected, [resolve_service] returns,
    randomized or not, a URI with that address and the candidate's port. *)
Theorem resolve_service_keeps_accepted
    (no_priority : service_priority) (unspecified : version_set)
    (discovery : Mdns.service_discovery) (service : service_type)
    (browse_domain : string) (api_ver : version_set)
    (priorities : service_priority * service_priority) (randomize : bool)
    (shuffle : list resolved_service -> list resolved_service)
    (resolving : Mdns.browse_result) (resolved : Mdns.resolve_result) (ip : string) :
  (forall l, Permutation l (shuffle l)) ->
  In resolving (Mdns.browse discovery service browse_domain) ->
  In resolved (Mdns.resolve discovery resolving) ->
  rejected no_priority unspecified service api_ver priorities resolved = false ->
  In ip (Mdns.ip_addresses resolved) ->
  exists ver,
    In ver api_ver
    /\ In (Uri.mk_uri "http" ip (Mdns.port resolved)
             ("/x-nmos/" ++ service_api service ++ "/" ++ make_api_version ver))
         (resolve_service no_priority unspecified discovery service browse_domain
            api_ver priorities randomize shuffle).
Proof.
  intros Hshuffle Hb Hr Hrej Hip.
  destruct (not_rejected_selects _ _ _ _ _ resolved Hrej) as (ver & Hfind).
  exists ver. split; [apply (find_first_of_common _ _ _ Hfind)|].
  apply (In_resolve_service _ _ _ _ _ _ _ _ _ _ Hshuffle).
  exists ((ver, parse_pri_record no_priority
                  (Mdns.parse_txt_records (Mdns.resolved_txt_records resolved))),
          Uri.mk_uri "http" ip (Mdns.port resolved)
            ("/x-nmos/" ++ service_api service ++ "/" ++ make_api_version ver)).
  split; [|reflexivity].
  apply In_browse_results. exists resolving, resolved.
  split; [assumption|]. split; [assumption|].
  apply In_resolve_handler. split; [assumption|].
  exists ver, ip. auto.
Qed.

Lemma resolve_service_keeps_accepted_witness :
  let candidate :=
    Mdns.mk_resolve_result "registry" 3210
      ["api_proto=http"; "api_ver=v1.1,v1.2"; "pri=50"]%string
      ["10.0.0.1"; "10.0.0.2"]%string in
  exists ver,
    In ver [v1_2; v1_3]
    /\ In (Uri.mk_uri "http" "10.0.0.2" 3210 ("/x-nmos/query/" ++ make_api_version ver))
         (resolve_service 100 [v1_0] (discovery_of [candidate]) service_types.query
            "local." [v1_2; v1_3] (0, 99) true (@rev _)).
Proof.
  intros candidate.
  exact (resolve_service_keeps_accepted 100 [v1_0] (discovery_of [candidate])
           service_types.query "local." [v1_2; v1_3] (0, 99) true (@rev _)
           (Mdns.mk_browse_result "registry" service_types.query "local." 0)
           candidate "10.0.0.2"
           (fun l => Permutation_rev l) (or_introl eq_refl) (or_introl eq_refl)
           eq_refl (or_intror (or_introl eq_refl))).
Defined.

Lemma resolved_service_less_rank (lhs rhs : resolved_service) :
  resolved_service_less lhs rhs = rank_less (fst lhs) (fst rhs).
Proof. reflexivity. Qed.

Lemma rank_less_asym (a b : api_version * service_priority) :
  rank_less a b = true -> rank_less b a = false.
Proof.
  apply (resolved_service_less_asym (a, Uri.mk_uri "" "" 0 "") (b, Uri.mk_uri "" "" 0 "")).
Qed.

Lemma rank_less_negtrans (a b c : api_version * service_priority) :
  rank_less a b = false -> rank_less b c = false -> rank_less a c = false.
Proof.
  apply (resolved_service_less_negtrans (a, Uri.mk_uri "" "" 0 "")
           (b, Uri.mk_uri "" "" 0 "") (c, Uri.mk_uri "" "" 0 "")).
Qed.

Lemma equivalent_rank_eq (a b : api_version * service_priority) :
  equivalent rank_less a b = true -> b = a.
Proof.
  intros H.
  pose proof (equivalent_same_rank (a, Uri.mk_uri "" "" 0 "") (b, Uri.mk_uri "" "" 0 ""))
    as Hs.
  change (equivalent resolved_service_less (a, Uri.mk_uri "" "" 0 "")
            (b, Uri.mk_uri "" "" 0 ""))
    with (equivalent rank_less a b) in Hs.
  rewrite H in Hs. symmetry in Hs. unfold same_rank in Hs. cbn [fst snd] in Hs.
  apply andb_prop in Hs. destruct Hs as [Hv Hp].
  apply eqb_eq in Hv. apply Z.eqb_eq in Hp.
  destruct a, b; simpl in *. congruence.
Qed.

Lemma Permutation_filter_length {A : Type} (p : A -> bool) (l1 l2 : list A) :
  Permutation l1 l2 -> List.length (filter p l1) = List.length (filter p l2).
Proof.
  induction 1 as [|x l1 l2 _ IH|x y l|l1 l2 l3 _ IH1 _ IH2]; simpl.
  - reflexivity.
  - destruct (p x); simpl; congruence.
  - destruct (p x), (p y); reflexivity.
  - congruence.
Qed.

Lemma filter_repeat {A : Type} (p : A -> bool) (k : A) (l : list A) :
  (forall x, p x = true -> x = k) ->
  filter p l = repeat k (List.length (filter p l)).
Proof.
  intros Hp. induction l as [|x l IH]; [reflexivity|].
  simpl. destruct (p x) eqn:E; [|exact IH].
  simpl. rewrite <- IH. now rewrite (Hp x E).
Qed.

Lemma sorted_ranks (l : list resolved_service) :
  StronglySorted (fun a b => resolved_service_less b a = false) l ->
  StronglySorted (fun a b => rank_less b a = false) (map fst l).
Proof.
  induction 1 as [|x l Hl IH Hx]; simpl; constructor; [assumption|].
  rewrite Forall_forall in *. intros k Hk. apply in_map_iff in Hk.
  destruct Hk as (y & <- & Hy). exact (Hx y Hy).
Qed.

(** Two rankings of the same candidates show the same ranks, position
    by position. *)
Lemma sorted_ranks_unique (l1 l2 : list resolved_service) :
  StronglySorted (fun a b => resolved_service_less b a = false) l1 ->
  StronglySorted (fun a b => resolved_service_less b a = false) l2 ->
  Permutation l1 l2 ->
  map fst l1 = map fst l2.
Proof.
  intros H1 H2 Hperm.
  apply (sorted_stable_unique _ rank_less rank_less_asym).
  - now apply sorted_ranks.
  - now apply sorted_ranks.
  - intros k.
    rewrite (filter_repeat (equivalent rank_less k) k (map fst l1))
      by apply equivalent_rank_eq.
    rewrite (filter_repeat (equivalent rank_less k) k (map fst l2))
      by apply equivalent_rank_eq.
    f_equal. apply Permutation_filter_length. now apply Permutation_map.
Qed.

(** What [std::stable_sort] with [resolved_service_less] gives: the same
    results, ranked, those of the same rank in the order they had. *)
Lemma stable_sort_ranked (l : list resolved_service) :
  Permutation l (stable_sort resolved_service_less l)
  /\ StronglySorted ranks_before (stable_sort resolved_service_less l)
  /\ forall k,
       filter (same_rank k) (stable_sort resolved_service_less l)
       = filter (same_rank k) l.
Proof.
  split; [apply stable_sort_perm|]. split.
  - apply StronglySorted_weaken
      with (R := fun a b => resolved_service_less b a = false).
    + intros a b. apply resolved_service_less_false.
    + apply stable_sort_sorted;
        [apply resolved_service_less_asym | apply resolved_service_less_negtrans].
  - intros k.
    rewrite !(filter_ext (same_rank k) (equivalent resolved_service_less k))
      by (intros; symmetry; apply equivalent_same_rank).
    apply stable_sort_stable. apply resolved_service_less_negtrans.
Qed.

(** X11.  Randomization changes nothing but the order among candidates
    of the same api_ver and pri.  When the shuffle is a permutation, the
    unrandomized and the randomized result are both the URIs of a ranking
    of the collected candidates (the same candidates, the higher api_ver
    first and for the same api_ver the lower pri first); candidates of the
    same api_ver and pri come in the order they were found in the first,
    and in the order the shuffle left them in the second; and the two
    rankings show the same api_ver and pri at every position. *)
Theorem randomize_reorders_equal_ranks_only
    (no_priority : service_priority) (unspecified : version_set)
    (discovery : Mdns.service_discovery) (service : service_type)
    (browse_domain : string) (api_ver : version_set)
    (priorities : service_priority * service_priority)
    (shuffle : list resolved_service -> list resolved_service) :
  (forall l, Permutation l (shuffle l)) ->
  let results :=
    browse_results no_priority unspecified discovery service browse_domain
      api_ver priorities in
  exists ranked ranked' : list resolved_service,
    (resolve_service no_priority unspecified discovery service browse_domain
       api_ver priorities false shuffle = map snd ranked
     /\ Permutation results ranked
     /\ StronglySorted ranks_before ranked
     /\ forall k, filter (same_rank k) ranked = filter (same_rank k) results)
    /\ (resolve_service no_priority unspecified discovery service browse_domain
          api_ver priorities true shuffle = map snd ranked'
        /\ Permutation results ranked'
        /\ StronglySorted ranks_before ranked'
        /\ forall k,
             filter (same_rank k) ranked'
             = filter (same_rank k) (shuffle results))
    /\ Permutation ranked ranked'
    /\ map fst ranked' = map fst ranked.
Proof.
  intros Hshuffle results.
  exists (stable_sort resolved_service_less results),
         (stable_sort resolved_service_less (shuffle results)).
  destruct (stable_sort_ranked results) as [Hperm [Hsorted Hstable]].
  destruct (stable_sort_ranked (shuffle results)) as [Hperm' [Hsorted' Hstable']].
  assert (Hboth : Permutation (stable_sort resolved_service_less results)
                    (stable_sort resolved_service_less (shuffle results))).
  { eapply perm_trans; [apply Permutation_sym, Hperm|].
    eapply perm_trans; [apply Hshuffle | exact Hperm']. }
  split; [repeat split; assumption|].
  split.
  { split; [reflexivity|]. split; [|split; assumption].
    eapply perm_trans; [apply Hshuffle | exact Hperm']. }
  split; [exact Hboth|].
  apply sorted_ranks_unique.
  - apply stable_sort_sorted;
      [apply resolved_service_less_asym | apply resolved_service_less_negtrans].
  - apply stable_sort_sorted;
      [apply resolved_service_less_asym | apply resolved_service_less_negtrans].
  - now apply Permutation_sym.
Qed.

Lemma randomize_reorders_equal_ranks_only_witness :
  let candidate ip ver pri :=
    Mdns.mk_resolve_result ip 3210
      (Mdns.make_txt_records
         (make_txt_records service_types.registration pri [ver] "http")) [ip] in
  let discovery :=
    discovery_of [candidate "10.0.0.1" v1_3 10; candidate "10.0.0.2" v1_2 10;
                  candidate "10.0.0.3" v1_3 10]%string in
  exists ranked ranked' : list resolved_service,
    map Uri.host (map snd ranked) = ["10.0.0.1"; "10.0.0.3"; "10.0.0.2"]%string
    /\ map Uri.host (map snd ranked') = ["10.0.0.3"; "10.0.0.1"; "10.0.0.2"]%string
    /\ StronglySorted ranks_before ranked
    /\ StronglySorted ranks_before ranked'
    /\ map fst ranked' = map fst ranked.
Proof.
  intros candidate discovery.
  destruct (randomize_reorders_equal_ranks_only 100 [v1_0] discovery
              service_types.registration "local." [v1_2; v1_3] (0, 99) (@rev _)
              (fun l => Permutation_rev l))
    as (ranked & ranked' & (H & _ & Hs & _) & (H' & _ & Hs' & _) & _ & Hranks).
  exists ranked, ranked'.
  split; [rewrite <- H; reflexivity|]. split; [rewrite <- H'; reflexivity|].
  split; [exact Hs|]. split; [exact Hs' | exact Hranks].
Defined.

(** X12.  [resolve_service] returns nothing, whatever is discovered,
    when the caller requires no version, or when the service is not the
    node's and the priority band is empty (its upper end below its
    lower end). *)
Theorem resolve_service_nothing_acceptable
    (no_priority : service_priority) (unspecified : version_set)
    (discovery : Mdns.service_discovery) (service : service_type)
    (browse_domain : string) (api_ver : version_set)
    (priorities : service_priority * service_priority) (randomize : bool)
    (shuffle : list resolved_service -> list resolved_service) :
  (forall l, Permutation l (shuffle l)) ->
  api_ver = []
  \/ (String.eqb service service_types.node = false
      /\ snd priorities < fst priorities) ->
  resolve_service no_priority unspecified discovery service browse_domain
    api_ver priorities randomize shuffle = [].
Proof.
  intros Hshuffle Hcase.
  destruct (resolve_service no_priority unspecified discovery service browse_domain
              api_ver priorities randomize shuffle) as [|u rest] eqn:E; [reflexivity|].
  exfalso.
  assert (Hu : In u (resolve_service no_priority unspecified discovery service
                       browse_domain api_ver priorities randomize shuffle))
    by (rewrite E; now left).
  apply (In_resolve_service _ _ _ _ _ _ _ _ _ _ Hshuffle) in Hu.
  destruct Hu as (x & Hx & _). apply In_browse_results in Hx.
  destruct Hx as (resolving & resolved & _ & _ & Hx).
  apply In_resolve_handler in Hx. destruct Hx as (Hrej & ver & ip & Hfind & _).
  destruct Hcase as [->|[Hnode Hband]].
  - apply find_first_of_common in Hfind. destruct Hfind as [_ []].
  - pose proof (not_rejected_band _ _ _ _ _ resolved Hrej Hnode). lia.
Qed.

Lemma resolve_service_nothing_acceptable_witness :
  resolve_service 100 [v1_0]
    (discovery_of
       [Mdns.mk_resolve_result "registry" 3210
          ["api_proto=http"; "api_ver=v1.2,v1.3"; "pri=50"]%string ["10.0.0.1"%string]])
    service_types.registration "local." [v1_2; v1_3] (99, 0) true (@rev _) = [].
Proof.
  apply resolve_service_nothing_acceptable.
  - intros l. apply Permutation_rev.
  - right. split; [reflexivity | simpl; lia].
Defined.

End ResolveFacts.

(** ** The System API: PUT and GET of [/global] together *)

Module SystemApiCompose.
Import ApiVersion Exn SystemApi.

(** What a PUT leaves behind, in every case. *)
Lemma put_global_cases
    (validate : api_version -> Json.value -> bool) (model : registry_model)
    (version : string) (body : Json.value) :
  (exists log,
     put_global validate model version body
     = (mk_registry_model (settings model)
          (mk_resource (mk_api_version 1 0) global body true),
        log, Returned (mk_http_response status_codes.Created (Some body))))
  \/ (exists e, put_global validate model version body = (model, [], Thrown e)).
Proof.
  unfold put_global.
  destruct (allow_invalid_resources (settings model)) as [allow|e];
    [|right; now exists e].
  destruct allow; cbn [negb];
    destruct (validate (parse_api_version version) body);
    try (left; eexists; reflexivity).
  right. now exists json_exception.
Qed.

(** X13.  A PUT that is answered is answered 201 with the body, leaves
    the settings alone and replaces the resource as a whole; the GET that
    follows answers 200 with that body - unless the body is JSON null,
    which leaves the resource without data, so that the GET answers 500. *)
Theorem put_global_then_get_global
    (validate : api_version -> Json.value -> bool) (model model' : registry_model)
    (version : string) (body : Json.value) (log : list log_entry)
    (reply : http_response) :
  put_global validate model version body = (model', log, Returned reply) ->
  reply = mk_http_response 201 (Some body)
  /\ settings model' = settings model
  /\ system_global_resource model' = mk_resource (mk_api_version 1 0) global body true
  /\ fst (get_global model')
     = (if Json.is_null body then mk_http_response 500 None
        else mk_http_response 200 (Some body)).
Proof.
  intros Hput.
  destruct (put_global_cases validate model version body) as [(log' & H)|(e & H)];
    rewrite H in Hput; inversion Hput; subst.
  split; [reflexivity|]. split; [reflexivity|]. split; [reflexivity|].
  unfold get_global, has_data. cbn [system_global_resource data].
  destruct (Json.is_null body); reflexivity.
Qed.

Lemma put_global_then_get_global_witness :
  let model :=
    mk_registry_model (Json.object [])
      (mk_resource (mk_api_version 1 0) global (Json.object []) true) in
  let validate := fun (_ : api_version) (_ : Json.value) => true in
  exists model',
    put_global validate model "v1.0" Json.null
    = (model', [], Returned (mk_http_response 201 (Some Json.null)))
    /\ fst (get_global model') = mk_http_response 500 None.
Proof.
  intros model validate. eexists. split; [reflexivity|].
  exact (proj2 (proj2 (proj2
           (put_global_then_get_global validate model _ "v1.0" Json.null [] _ eq_refl)))).
Defined.

(** X14.  Repeating a PUT /global changes nothing that the handlers
    show: on the model the first PUT left, the same PUT gives the same
    reply or exception and the same log, and leaves the same settings and
    the same stored data, so that a GET is answered as after the first;
    what was stored before the first PUT does not matter.  (The stamps a
    resource carries besides its data are not modelled and are not
    compared.) *)
Theorem put_global_idempotent
    (validate : api_version -> Json.value -> bool) (model : registry_model)
    (version : string) (body : Json.value) :
  let first := put_global validate model version body in
  let second := put_global validate (fst (fst first)) version body in
  snd second = snd first
  /\ snd (fst second) = snd (fst first)
  /\ settings (fst (fst second)) = settings (fst (fst first))
  /\ data (system_global_resource (fst (fst second)))
     = data (system_global_resource (fst (fst first)))
  /\ get_global (fst (fst second)) = get_global (fst (fst first)).
Proof.
  intros first second.
  assert (H : second = first).
  { unfold second, first.
    destruct (put_global_cases validate model version body) as [(log & H)|(e & H)].
    - rewrite H. cbn [fst]. unfold put_global in *. cbn [settings] in *.
      destruct (allow_invalid_resources (settings model)) as [allow|e]; [|discriminate].
      destruct allow; cbn [negb] in *;
        destruct (validate (parse_api_version version) body);
        try discriminate; inversion H; reflexivity.
    - rewrite H. cbn [fst]. exact H. }
  rewrite H. repeat split.
Qed.

End SystemApiCompose.

(** ** Node start-up: the settings main prepares and how it ends *)

Module NodeMainMore.
Import Exn NodeMain NodeMainFacts.

Lemma main_bad_settings (env : environment) :
  command_line_settings env = None ->
  main env = (-1, [(info, "Starting nmos-cpp node"%string);
                   (severe, "Bad command-line settings ["%string)]).
Proof. intros H. unfold main. now rewrite H. Qed.

Lemma main_good_settings (env : environment) (settings : Json.value) :
  command_line_settings env = Some settings ->
  fst (main env) = 0
  /\ In (info, "Stopping nmos-cpp node"%string) (snd (main env)).
Proof.
  intros H. unfold main. rewrite H.
  destruct (settings0 <- prepare_settings env settings;; run env settings0);
    cbn [fst snd]; split; simpl; auto.
Qed.

Lemma command_line_settings_none (env : environment) :
  command_line_settings env = None
  <-> exists arg,
        argv1 env = Some arg
        /\ match parse_string env arg with
           | Some v => Json.is_object v = false
           | None =>
               match parse_file env arg with
               | Some v => Json.is_object v = false
               | None => True
               end
           end.
Proof.
  unfold command_line_settings. destruct (argv1 env) as [arg|].
  - split.
    + intros H. exists arg. split; [reflexivity|].
      destruct (parse_string env arg) as [v|].
      * destruct (Json.is_object v); [discriminate | reflexivity].
      * destruct (parse_file env arg) as [v|]; [|exact I].
        destruct (Json.is_object v); [discriminate | reflexivity].
    + intros (a & Ha & H). inversion Ha; subst a.
      destruct (parse_string env arg) as [v|].
      * now rewrite H.
      * destruct (parse_file env arg) as [v|]; [now rewrite H | reflexivity].
  - split; [discriminate | intros (a & Ha & _); discriminate].
Qed.

(** X15.  main returns -1 or 0 and nothing else.  It returns -1 exactly
    when there is a command-line argument and either it parses as JSON
    that is not an object - the file of that name is then not tried - or
    it does not parse and the file of that name does not parse or does
    not hold an object.  "Stopping nmos-cpp node" is logged exactly when
    it returns 0. *)
Theorem main_exit_code_cases (env : environment) :
  (fst (main env) = -1 \/ fst (main env) = 0)
  /\ (fst (main env) = -1
      <-> exists arg,
            argv1 env = Some arg
            /\ match parse_string env arg with
               | Some v => Json.is_object v = false
               | None =>
                   match parse_file env arg with
                   | Some v => Json.is_object v = false
                   | None => True
                   end
               end)
  /\ (In (info, "Stopping nmos-cpp node"%string) (snd (main env))
      <-> fst (main env) = 0).
Proof.
  rewrite <- command_line_settings_none.
  destruct (command_line_settings env) as [settings|] eqn:E.
  - destruct (main_good_settings env settings E) as [H0 Hstop].
    rewrite H0. split; [now right|]. split; [split; discriminate|].
    split; auto.
  - rewrite (main_bad_settings env E). cbn [fst snd].
    split; [now left|]. split; [split; reflexivity|].
    split; [|discriminate]. intros [H|[H|[]]]; discriminate.
Qed.

Lemma field_insert_any (v : Json.value) (key key' : string) (x : Json.value) :
  Json.is_object v = true \/ v = Json.null ->
  Json.field (Json.insert v key x) key'
  = match Json.field v key' with
    | Some y => Some y
    | None => if String.eqb key key' then Some x else None
    end.
Proof.
  intros [H| ->]; [now apply field_insert|].
  simpl. destruct (String.eqb key key'); reflexivity.
Qed.

Lemma insert_is_object_any (v : Json.value) (key : string) (x : Json.value) :
  Json.is_object v = true \/ v = Json.null ->
  Json.is_object (Json.insert v key x) = true.
Proof.
  intros [H| ->]; [now apply insert_is_object | reflexivity].
Qed.

(** The settings of the command line are an object, or null when there
    is no argument. *)
Lemma command_line_settings_shape (env : environment) (settings : Json.value) :
  command_line_settings env = Some settings ->
  Json.is_object settings = true \/ settings = Json.null.
Proof.
  unfold command_line_settings. destruct (argv1 env) as [arg|].
  - destruct (match parse_string env arg with
              | Some v => Some v
              | None => parse_file env arg
              end) as [v|]; [|discriminate].
    destruct (Json.is_object v) eqn:E; [|discriminate].
    intros H. inversion H; subst. now left.
  - intros H. inversion H. now right.
Qed.

(** The steps of [prepare_settings] when it returns. *)
Lemma prepare_settings_inv (env : environment) (settings prepared : Json.value) :
  let s1 :=
    Json.insert (Json.insert settings fields.seed_id (Json.string_ (make_id env)))
      fields.logging_level (Json.number (level env)) in
  let s2 :=
    match interface_addresses env with
    | [] => s1
    | addresses =>
        Json.insert s1 fields.host_addresses (Json.array (map Json.string_ addresses))
    end in
  prepare_settings env settings = Returned prepared ->
  exists s3,
    (forall v, Json.field s1 fields.logging_level = Some v -> exists n, v = Json.number n)
    /\ match Json.field s2 fields.host_addresses with
       | Some addresses =>
           exists first rest,
             addresses = Json.array (first :: rest)
             /\ s3 = Json.insert s2 fields.host_address first
       | None => s3 = s2
       end
    /\ default_ports s3 = Returned prepared.
Proof.
  intros s1 s2. unfold prepare_settings. fold s1. fold s2.
  assert (Hrest :
    (settings0 <-
       match Json.field s2 fields.host_addresses with
       | Some addresses =>
           first <- first_element addresses;;
           Returned (Json.insert s2 fields.host_address first)
       | None => Returned s2
       end;; default_ports settings0) = Returned prepared ->
    exists s3,
      match Json.field s2 fields.host_addresses with
      | Some addresses =>
          exists first rest,
            addresses = Json.array (first :: rest)
            /\ s3 = Json.insert s2 fields.host_address first
      | None => s3 = s2
      end
      /\ default_ports s3 = Returned prepared).
  { destruct (Json.field s2 fields.host_addresses) as [addresses|].
    - destruct addresses as [|b0|n0|str0|elements|flds0]; try discriminate.
      destruct elements as [|first rest]; [discriminate|].
      cbn [first_element bind]. intros H.
      exists (Json.insert s2 fields.host_address first). split; [eauto | exact H].
    - cbn [bind]. intros H. exists s2. split; [reflexivity | exact H]. }
  destruct (Json.field s1 fields.logging_level) as [lv|].
  - destruct lv; try discriminate. cbn [as_integer bind]. intros H.
    destruct (Hrest H) as (s3 & H3 & Hd). exists s3.
    split; [intros v Hv; inversion Hv; eauto|]. split; assumption.
  - cbn [bind]. intros H.
    destruct (Hrest H) as (s3 & H3 & Hd). exists s3.
    split; [intros v Hv; discriminate|]. split; assumption.
Qed.

(** The fields after the step that defaults the ports. *)
Lemma default_ports_cases (settings prepared : Json.value) (key : string) :
  Json.is_object settings = true ->
  default_ports settings = Returned prepared ->
  Json.field prepared key
  = match Json.field settings key with
    | Some v => Some v
    | None =>
        match Json.field settings fields.http_port with
        | Some http_port =>
            if existsb (String.eqb key) defaulted_ports then Some http_port else None
        | None => None
        end
    end
  /\ Json.is_object prepared = true
  /\ forall v, Json.field settings fields.http_port = Some v -> exists p, v = Json.number p.
Proof.
  intros Hobj Hd.
  destruct (Json.field settings fields.http_port) as [hp|] eqn:Ehp.
  - assert (Hnum : exists p, hp = Json.number p).
    { unfold default_ports, Json.has_field in Hd. rewrite Ehp in Hd.
      destruct hp; try discriminate. eauto. }
    destruct Hnum as (p & ->).
    destruct (default_ports_field settings p key Ehp) as (s' & Hs' & Hobj' & Hf).
    rewrite Hs' in Hd. inversion Hd; subst s'.
    split; [exact Hf|]. split; [exact Hobj'|].
    intros v Hv. inversion Hv. eauto.
  - unfold default_ports, Json.has_field in Hd. rewrite Ehp in Hd.
    inversion Hd; subst prepared.
    split; [destruct (Json.field settings key); reflexivity|].
    split; [exact Hobj | intros v Hv; discriminate].
Qed.

Section PreparedSettings.

Variable env : environment.
Variable settings : Json.value.
Hypothesis settings_shape : Json.is_object settings = true \/ settings = Json.null.

Let s1 :=
  Json.insert (Json.insert settings fields.seed_id (Json.string_ (make_id env)))
    fields.logging_level (Json.number (level env)).

Let s2 :=
  match interface_addresses env with
  | [] => s1
  | addresses =>
      Json.insert s1 fields.host_addresses (Json.array (map Json.string_ addresses))
  end.

Lemma s1_is_object : Json.is_object s1 = true.
Proof.
  unfold s1. apply insert_is_object. now apply insert_is_object_any.
Qed.

Lemma s2_is_object : Json.is_object s2 = true.
Proof.
  unfold s2. destruct (interface_addresses env); [apply s1_is_object|].
  apply insert_is_object. apply s1_is_object.
Qed.

Lemma s1_field (key : string) :
  Json.field s1 key
  = match Json.field settings key with
    | Some v => Some v
    | None =>
        if String.eqb fields.seed_id key then Some (Json.string_ (make_id env))
        else if String.eqb fields.logging_level key then Some (Json.number (level env))
        else None
    end.
Proof.
  unfold s1. rewrite field_insert by now apply insert_is_object_any.
  rewrite field_insert_any by assumption.
  destruct (Json.field settings key); [reflexivity|].
  destruct (String.eqb fields.seed_id key); reflexivity.
Qed.

Lemma s2_field (key : string) :
  Json.field s2 key
  = match Json.field s1 key with
    | Some v => Some v
    | None =>
        if String.eqb fields.host_addresses key then
          match interface_addresses env with
          | [] => None
          | addresses => Some (Json.array (map Json.string_ addresses))
          end
        else None
    end.
Proof.
  unfold s2. destruct (interface_addresses env) as [|a l].
  - destruct (Json.field s1 key); [reflexivity|].
    destruct (String.eqb fields.host_addresses key); reflexivity.
  - rewrite field_insert by apply s1_is_object. reflexivity.
Qed.

(** The settings just before the ports are defaulted. *)
Lemma before_default_ports (prepared : Json.value) :
  prepare_settings env settings = Returned prepared ->
  exists s3,
    default_ports s3 = Returned prepared
    /\ Json.is_object s3 = true
    /\ (forall key,
          Json.field s3 key
          = match Json.field s2 key with
            | Some v => Some v
            | None =>
                if String.eqb fields.host_address key then
                  match Json.field s2 fields.host_addresses with
                  | Some (Json.array (first :: _)) => Some first
                  | _ => None
                  end
                else None
            end)
    /\ (forall v,
          Json.field s1 fields.logging_level = Some v -> exists n, v = Json.number n).
Proof.
  intros H. destruct (prepare_settings_inv env settings prepared H)
    as (s3 & Hlevel & H3 & Hd).
  fold s1 in Hlevel. fold s1 s2 in H3.
  exists s3. split; [exact Hd|].
  destruct (Json.field s2 fields.host_addresses) as [addresses|] eqn:Eha.
  - destruct H3 as (first & rest & -> & ->).
    split; [apply insert_is_object, s2_is_object|]. split; [|exact Hlevel].
    intros key. rewrite field_insert by apply s2_is_object. reflexivity.
  - subst s3. split; [apply s2_is_object|]. split; [|exact Hlevel].
    intros key. destruct (Json.field s2 key); [reflexivity|].
    destruct (String.eqb fields.host_address key); reflexivity.
Qed.

(** A field of the prepared settings that is not one of the ports main
    defaults: the field as it was just before. *)
Lemma prepared_field_not_port (prepared : Json.value) (key : string) :
  prepare_settings env settings = Returned prepared ->
  existsb (String.eqb key) defaulted_ports = false ->
  exists s3,
    Json.field prepared key = Json.field s3 key
    /\ forall k,
         Json.field s3 k
         = match Json.field s2 k with
           | Some v => Some v
           | None =>
               if String.eqb fields.host_address k then
                 match Json.field s2 fields.host_addresses with
                 | Some (Json.array (first :: _)) => Some first
                 | _ => None
                 end
               else None
           end.
Proof.
  intros H Hport.
  destruct (before_default_ports prepared H) as (s3 & Hd & Hobj3 & H3 & _).
  exists s3. split; [|exact H3].
  destruct (default_ports_cases s3 prepared key Hobj3 Hd) as (Hp & _ & _).
  rewrite Hp, Hport.
  destruct (Json.field s3 key); [reflexivity|].
  destruct (Json.field s3 fields.http_port); reflexivity.
Qed.

(** A field that was given is in the prepared settings as it was given. *)
Lemma prepared_field_given (prepared : Json.value) (key : string) (v : Json.value) :
  prepare_settings env settings = Returned prepared ->
  Json.field settings key = Some v ->
  Json.field prepared key = Some v.
Proof.
  intros H Hv.
  destruct (before_default_ports prepared H) as (s3 & Hd & Hobj3 & H3 & _).
  destruct (default_ports_cases s3 prepared key Hobj3 Hd) as (Hp & _ & _).
  rewrite Hp, H3, s2_field, s1_field, Hv. reflexivity.
Qed.

(** A field that has no default of its own, and is not one of the
    defaulted ports, is in the prepared settings as it was given or
    omitted; so is a defaulted port when http_port is omitted. *)
Lemma prepared_field_untouched (prepared : Json.value) (key : string) :
  prepare_settings env settings = Returned prepared ->
  String.eqb fields.seed_id key = false ->
  String.eqb fields.logging_level key = false ->
  String.eqb fields.host_addresses key = false ->
  String.eqb fields.host_address key = false ->
  existsb (String.eqb key) defaulted_ports = false
  \/ Json.field settings fields.http_port = None ->
  Json.field prepared key = Json.field settings key.
Proof.
  intros H K1 K2 K3 K4 Hport.
  destruct (before_default_ports prepared H) as (s3 & Hd & Hobj3 & H3 & _).
  destruct (default_ports_cases s3 prepared key Hobj3 Hd) as (Hp & _ & _).
  assert (Hkey : Json.field s3 key = Json.field settings key).
  { rewrite H3, s2_field, s1_field, K1, K2, K3, K4.
    destruct (Json.field settings key); reflexivity. }
  assert (Hhttp : Json.field s3 fields.http_port = Json.field settings fields.http_port).
  { rewrite H3, s2_field, s1_field.
    destruct (Json.field settings fields.http_port); reflexivity. }
  rewrite Hp, Hkey, Hhttp.
  destruct (Json.field settings key); [reflexivity|].
  destruct Hport as [Hport|Hport]; rewrite Hport;
    [destruct (Json.field settings fields.http_port)|]; reflexivity.
Qed.

Ltac key_eqb :=
  repeat match goal with
         | |- context [String.eqb ?a ?b] =>
             let r := eval vm_compute in (String.eqb a b) in
             match r with
             | true => change (String.eqb a b) with true
             | false => change (String.eqb a b) with false
             end
         end.

Lemma prepared_seed_id (prepared : Json.value) :
  prepare_settings env settings = Returned prepared ->
  Json.field prepared fields.seed_id
  = Some match Json.field settings fields.seed_id with
         | Some v => v
         | None => Json.string_ (make_id env)
         end.
Proof.
  intros H.
  destruct (prepared_field_not_port prepared fields.seed_id H eq_refl)
    as (s3 & -> & H3).
  rewrite H3, s2_field, s1_field. key_eqb.
  destruct (Json.field settings fields.seed_id); reflexivity.
Qed.

Lemma prepared_logging_level (prepared : Json.value) :
  prepare_settings env settings = Returned prepared ->
  exists n,
    Json.field prepared fields.logging_level = Some (Json.number n)
    /\ (Json.field settings fields.logging_level = None -> n = level env)
    /\ (forall v, Json.field settings fields.logging_level = Some v ->
                  v = Json.number n).
Proof.
  intros H.
  destruct (prepared_field_not_port prepared fields.logging_level H eq_refl)
    as (s3 & -> & H3).
  destruct (before_default_ports prepared H) as (_ & _ & _ & _ & Hlevel).
  rewrite H3, s2_field. rewrite s1_field in *. key_eqb.
  destruct (Json.field settings fields.logging_level) as [v|].
  - destruct (Hlevel v eq_refl) as (n & ->). exists n.
    split; [reflexivity|]. split; [discriminate|].
    intros v Hv. now inversion Hv.
  - exists (level env). split; [reflexivity|]. split; [reflexivity | discriminate].
Qed.

Lemma prepared_host_addresses (prepared : Json.value) :
  prepare_settings env settings = Returned prepared ->
  Json.field prepared fields.host_addresses
  = match Json.field settings fields.host_addresses with
    | Some v => Some v
    | None =>
        match interface_addresses env with
        | [] => None
        | addresses => Some (Json.array (map Json.string_ addresses))
        end
    end.
Proof.
  intros H.
  destruct (prepared_field_not_port prepared fields.host_addresses H eq_refl)
    as (s3 & -> & H3).
  rewrite H3, s2_field, s1_field. key_eqb.
  destruct (Json.field settings fields.host_addresses); [reflexivity|].
  destruct (interface_addresses env); reflexivity.
Qed.

Lemma prepared_host_address (prepared : Json.value) :
  prepare_settings env settings = Returned prepared ->
  Json.field prepared fields.host_address
  = match Json.field settings fields.host_address with
    | Some v => Some v
    | None =>
        match Json.field prepared fields.host_addresses with
        | Some (Json.array (first :: _)) => Some first
        | _ => None
        end
    end.
Proof.
  intros H. rewrite (prepared_host_addresses prepared H).
  destruct (prepared_field_not_port prepared fields.host_address H eq_refl)
    as (s3 & -> & H3).
  rewrite H3, !s2_field, !s1_field. key_eqb.
  destruct (Json.field settings fields.host_address); [reflexivity|].
  destruct (Json.field settings fields.host_addresses); reflexivity.
Qed.

Lemma prepared_http_port (prepared : Json.value) (v : Json.value) :
  prepare_settings env settings = Returned prepared ->
  Json.field settings fields.http_port = Some v ->
  exists p, v = Json.number p.
Proof.
  intros H Hv.
  destruct (before_default_ports prepared H) as (s3 & Hd & Hobj3 & H3 & _).
  destruct (default_ports_cases s3 prepared fields.http_port Hobj3 Hd) as (_ & _ & Hnum).
  apply Hnum. rewrite H3, s2_field, s1_field, Hv. reflexivity.
Qed.

End PreparedSettings.

Lemma default_ports_throws (settings : Json.value) (e : exception) :
  default_ports settings = Thrown e -> e = json_exception.
Proof.
  unfold default_ports. destruct (Json.has_field settings fields.http_port);
    [|discriminate].
  destruct (Json.field settings fields.http_port) as [v|]; [|discriminate].
  destruct v; cbn [as_integer bind]; try discriminate; intros H; now inversion H.
Qed.

(** The only exception [prepare_settings] raises is [json_exception]. *)
Lemma prepare_settings_throws (env : environment) (settings : Json.value)
    (e : exception) :
  prepare_settings env settings = Thrown e -> e = json_exception.
Proof.
  unfold prepare_settings.
  destruct (match Json.field _ fields.logging_level with
            | Some v => as_integer v
            | None => Returned (level env)
            end) as [n|e1] eqn:E1.
  - cbn [bind].
    destruct (match Json.field _ fields.host_addresses with
              | Some addresses => _
              | None => _
              end) as [s3|e2] eqn:E2.
    + cbn [bind]. apply default_ports_throws.
    + cbn [bind]. intros H. inversion H; subst e2.
      destruct (Json.field _ fields.host_addresses) as [addresses|]; [|discriminate].
      destruct addresses as [|b0|n0|str0|elements|flds0];
        try (cbn in E2; now inversion E2).
      destruct elements; cbn in E2; [now inversion E2 | discriminate].
  - cbn [bind]. intros H. inversion H; subst e1.
    destruct (Json.field _ fields.logging_level) as [v|]; [|discriminate].
    destruct v; cbn in E1; try discriminate; now inversion E1.
Qed.

(** X16.  The run-time defaults never replace a setting given on the
    command line: when main has prepared its settings, every field that
    was given has the value that was given.  (An empty host_addresses
    list is left aside: the source reads its first element.) *)
Theorem given_settings_are_kept
    (env : environment) (settings prepared : Json.value) (key : string)
    (v : Json.value) :
  command_line_settings env = Some settings ->
  prepare_settings env settings = Returned prepared ->
  Json.field settings fields.host_addresses <> Some (Json.array []) ->
  Json.field settings key = Some v ->
  Json.field prepared key = Some v.
Proof.
  intros Hs Hp _ Hv.
  exact (prepared_field_given env settings (command_line_settings_shape env settings Hs)
           prepared key v Hp Hv).
Qed.

Lemma given_settings_are_kept_witness :
  let given :=
    Json.object [("http_port"%string, Json.number 3210);
                 ("node_port"%string, Json.number 8080);
                 ("seed_id"%string, Json.string_ "mine")] in
  let env :=
    mk_environment (Some "{...}"%string) (fun _ => Some given) (fun _ => None) "id" 0
      ["10.0.0.1"%string] (fun _ => Returned tt) in
  match prepare_settings env given with
  | Returned prepared =>
      Json.field prepared "node_port" = Some (Json.number 8080)
      /\ Json.field prepared "seed_id" = Some (Json.string_ "mine")
  | Thrown _ => False
  end.
Proof.
  intros given env.
  exact (conj
           (given_settings_are_kept env given _ "node_port" (Json.number 8080)
              eq_refl eq_refl ltac:(discriminate) eq_refl)
           (given_settings_are_kept env given _ "seed_id" (Json.string_ "mine")
              eq_refl eq_refl ltac:(discriminate) eq_refl)).
Defined.

Lemma port_settings_keys (port : string) :
  In port port_settings ->
  String.eqb fields.seed_id port = false
  /\ String.eqb fields.logging_level port = false
  /\ String.eqb fields.host_addresses port = false
  /\ String.eqb fields.host_address port = false.
Proof.
  unfold port_settings. simpl.
  intros [<-|[<-|[<-|[<-|[<-|[<-|[<-|[<-|[<-|[]]]]]]]]]]; repeat split.
Qed.

(** X17.  Without http_port main adds no port setting: each of the nine
    listener ports is in the prepared settings as it was given or omitted.
    With or without http_port, events_port, query_port, system_port and
    events_ws_port are never given a value by main. *)
Theorem ports_without_default
    (env : environment) (settings prepared : Json.value) (port : string) :
  command_line_settings env = Some settings ->
  prepare_settings env settings = Returned prepared ->
  In port port_settings ->
  (Json.field settings fields.http_port = None ->
   Json.field prepared port = Json.field settings port)
  /\ (In port [fields.events_port; fields.query_port; fields.system_port;
               fields.events_ws_port] ->
      Json.field prepared port = Json.field settings port).
Proof.
  intros Hs Hp Hport.
  destruct (port_settings_keys port Hport) as (K1 & K2 & K3 & K4).
  pose proof (command_line_settings_shape env settings Hs) as Hshape.
  split.
  - intros Hhttp.
    apply (prepared_field_untouched env settings Hshape prepared port Hp K1 K2 K3 K4).
    now right.
  - intros Hin.
    apply (prepared_field_untouched env settings Hshape prepared port Hp K1 K2 K3 K4).
    left. simpl in Hin. destruct Hin as [<-|[<-|[<-|[<-|[]]]]]; reflexivity.
Qed.

Lemma ports_without_default_witness :
  let given := Json.object [("http_port"%string, Json.number 3210)] in
  let env :=
    mk_environment (Some "{...}"%string) (fun _ => Some given) (fun _ => None) "id" 0
      ["10.0.0.1"%string] (fun _ => Returned tt) in
  match prepare_settings env given with
  | Returned prepared => Json.field prepared "events_port" = None
  | Thrown _ => False
  end.
Proof.
  intros given env.
  exact (proj2 (ports_without_default env given _ "events_port" eq_refl eq_refl
                  (or_intror (or_intror (or_introl eq_refl))))
           (or_introl eq_refl)).
Defined.

(** X18.  The defaults main gives: an omitted seed_id is the generated
    id; logging_level is an integer, the initial level when omitted; an
    omitted host_addresses is the list of interface addresses, if there is
    any; an omitted host_address is the first of host_addresses, and stays
    omitted when there is no host_addresses. *)
Theorem prepared_settings_defaults
    (env : environment) (settings prepared : Json.value) :
  command_line_settings env = Some settings ->
  prepare_settings env settings = Returned prepared ->
  (Json.field settings fields.seed_id = None ->
   Json.field prepared fields.seed_id = Some (Json.string_ (make_id env)))
  /\ (exists n,
        Json.field prepared fields.logging_level = Some (Json.number n)
        /\ (Json.field settings fields.logging_level = None -> n = level env))
  /\ (Json.field settings fields.host_addresses = None ->
      Json.field prepared fields.host_addresses
      = match interface_addresses env with
        | [] => None
        | addresses => Some (Json.array (map Json.string_ addresses))
        end)
  /\ (Json.field settings fields.host_address = None ->
      (forall first rest,
         Json.field prepared fields.host_addresses = Some (Json.array (first :: rest)) ->
         Json.field prepared fields.host_address = Some first)
      /\ (Json.field prepared fields.host_addresses = None ->
          Json.field prepared fields.host_address = None)).
Proof.
  intros Hs Hp.
  pose proof (command_line_settings_shape env settings Hs) as Hshape.
  split; [|split; [|split]].
  - intros Hnone. rewrite (prepared_seed_id env settings Hshape prepared Hp).
    now rewrite Hnone.
  - destruct (prepared_logging_level env settings Hshape prepared Hp)
      as (n & Hn & Hdef & _).
    exists n. split; assumption.
  - intros Hnone. rewrite (prepared_host_addresses env settings Hshape prepared Hp).
    now rewrite Hnone.
  - intros Hnone.
    pose proof (prepared_host_address env settings Hshape prepared Hp) as Hha.
    rewrite Hnone in Hha. split.
    + intros first rest Hfirst. now rewrite Hha, Hfirst.
    + intros Hno. now rewrite Hha, Hno.
Qed.

Lemma prepared_settings_defaults_witness :
  let env :=
    mk_environment None (fun _ => None) (fun _ => None) "id" (-10)
      ["10.0.0.1"; "192.168.0.1"]%string (fun _ => Returned tt) in
  match prepare_settings env Json.null with
  | Returned prepared =>
      Json.field prepared "seed_id" = Some (Json.string_ "id")
      /\ Json.field prepared "host_address" = Some (Json.string_ "10.0.0.1")
  | Thrown _ => False
  end.
Proof.
  intros env.
  destruct (prepared_settings_defaults env Json.null _ eq_refl eq_refl)
    as (Hseed & _ & _ & Hhost).
  exact (conj (Hseed eq_refl)
           (proj1 (Hhost eq_refl) (Json.string_ "10.0.0.1")
              [Json.string_ "192.168.0.1"] eq_refl)).
Defined.

(** X19.  A logging_level or an http_port that is given with a value
    that is not a number - a string, a boolean, null, an array or an
    object - ends main before the node runs: the [json_exception] is
    caught, "JSON error" is logged, and main returns 0.  (Nothing is said
    of a number with a fraction, which is not modelled.) *)
Theorem wrong_typed_setting_ends_main
    (env : environment) (settings : Json.value) (v : Json.value) :
  command_line_settings env = Some settings ->
  Json.field settings fields.logging_level = Some v
  \/ Json.field settings fields.http_port = Some v ->
  Json.is_number v = false ->
  prepare_settings env settings = Thrown json_exception
  /\ main env = (0, [(info, "Starting nmos-cpp node"%string);
                     (error, "JSON error: "%string);
                     (info, "Stopping nmos-cpp node"%string)]).
Proof.
  intros Hs Hv Hnumber.
  assert (Hnot : forall n, v <> Json.number n)
    by (intros n ->; discriminate).
  pose proof (command_line_settings_shape env settings Hs) as Hshape.
  assert (Hthrown : prepare_settings env settings = Thrown json_exception).
  { destruct (prepare_settings env settings) as [prepared|e] eqn:Hp.
    - exfalso. destruct Hv as [Hv|Hv].
      + destruct (prepared_logging_level env settings Hshape prepared Hp)
          as (n & _ & _ & Hn).
        exact (Hnot n (Hn v Hv)).
      + destruct (prepared_http_port env settings Hshape prepared v Hp Hv) as (p & ->).
        exact (Hnot p eq_refl).
    - now rewrite (prepare_settings_throws env settings e Hp). }
  split; [exact Hthrown|].
  unfold main. rewrite Hs, Hthrown. reflexivity.
Qed.

Lemma wrong_typed_setting_ends_main_witness :
  let given := Json.object [("http_port"%string, Json.string_ "3210")] in
  let env :=
    mk_environment (Some "{...}"%string) (fun _ => Some given) (fun _ => None) "id" 0
      ["10.0.0.1"%string] (fun _ => Returned tt) in
  main env = (0, [(info, "Starting nmos-cpp node"%string);
                  (error, "JSON error: "%string);
                  (info, "Stopping nmos-cpp node"%string)]).
Proof.
  intros given env.
  apply (proj2 (wrong_typed_setting_ends_main env given (Json.string_ "3210")
                  eq_refl (or_intror eq_refl) eq_refl)).
Defined.

End NodeMainMore.

(** ** Reading numbers from TXT values *)

Module ParseValueFacts.
Import Stream Nmos StreamFacts.

Lemma skip_ws_blank (ws s : string) :
  all_chars is_space ws = true -> skip_ws (ws ++ s) = skip_ws s.
Proof.
  induction ws as [|c ws IH]; [reflexivity|].
  cbn [all_chars]. intros H. apply andb_prop in H. destruct H as [Hc Hws].
  change (String c ws ++ s)%string with (String c (ws ++ s)).
  cbn [skip_ws]. rewrite Hc. now apply IH.
Qed.

Lemma get_int_skips_blank (ws s : string) (init : Z) :
  all_chars is_space ws = true -> get_int (ws ++ s) init = get_int s init.
Proof.
  intros H. unfold get_int. now rewrite skip_ws_blank.
Qed.

Lemma get_int_put_Z_then (z init : Z) (rest : string) :
  int_min <= z <= int_max ->
  starts_with_digit rest = false ->
  get_int (put_Z z ++ rest) init = z.
Proof.
  intros Hz Hrest. unfold put_Z, get_int.
  destruct (z <? 0) eqn:E.
  - apply Z.ltb_lt in E.
    change (String "-" (put_N (Z.abs_N z)) ++ rest)%string
      with (String "-" (put_N (Z.abs_N z) ++ rest)).
    cbn [skip_ws].
    replace (is_space "-") with false by reflexivity.
    replace (Ascii.eqb "-" "-") with true by reflexivity.
    rewrite get_N_put_N by assumption. rewrite N2Z.inj_abs_N.
    rewrite clamp_int_id; lia.
  - apply Z.ltb_ge in E.
    destruct (put_N_cons (Z.to_N z)) as (c & s & Heq & Hc).
    pose proof (get_N_put_N (Z.to_N z) rest Hrest) as Hget. rewrite Heq in *.
    change (String c s ++ rest)%string with (String c (s ++ rest)) in *.
    pose proof (is_digit_range c Hc) as Hr.
    assert (Hsp : is_space c = false).
    { unfold is_space. apply orb_false_intro.
      - apply N.eqb_neq. lia.
      - apply andb_false_intro2. apply N.leb_gt. lia. }
    cbn [skip_ws]. rewrite Hsp.
    assert (Hminus : Ascii.eqb c "-" = false).
    { apply Ascii.eqb_neq. intros ->. simpl in Hr. lia. }
    assert (Hplus : Ascii.eqb c "+" = false).
    { apply Ascii.eqb_neq. intros ->. simpl in Hr. lia. }
    rewrite Hminus, Hplus, Hget. rewrite Z2N.id by lia.
    apply clamp_int_id. exact Hz.
Qed.

(** X20.  The pri and ver_ values are read leniently: white space in
    front of the number is skipped and whatever follows its digits is
    ignored, so that the number written by [make_pri_value] or
    [make_ver_value] is read back from inside such a text; a value that
    is empty or blank gives the default, [no_priority] or 0. *)
Theorem pri_and_ver_values_read_leniently
    (no_priority pri : service_priority) (ver : api_resource_version)
    (blank rest : string) :
  all_chars is_space blank = true ->
  starts_with_digit rest = false ->
  int_min <= pri <= int_max ->
  0 <= ver < api_resource_version_modulus ->
  parse_pri_value no_priority (blank ++ make_pri_value pri ++ rest) = pri
  /\ parse_ver_value (blank ++ make_ver_value ver ++ rest) = ver
  /\ parse_pri_value no_priority blank = no_priority
  /\ parse_ver_value blank = 0.
Proof.
  intros Hblank Hrest Hpri Hver.
  unfold parse_pri_value, parse_ver_value, make_pri_value, make_ver_value,
    istringstreamed, ostringstreamed, api_resource_version_modulus in *.
  rewrite !(get_int_skips_blank blank) by assumption.
  rewrite !get_int_put_Z_then by (unfold int_min, int_max in *; solve [assumption | lia]).
  assert (Hempty : forall init, get_int blank init = init).
  { intros init. rewrite <- (append_empty_r blank).
    now rewrite (get_int_skips_blank blank). }
  rewrite !Hempty. repeat split; try reflexivity.
  apply Z.mod_small. lia.
Qed.

Lemma pri_and_ver_values_read_leniently_witness :
  parse_pri_value 100 "  50 (production)" = 50
  /\ parse_ver_value " 7;" = 7
  /\ parse_pri_value 100 "  " = 100
  /\ parse_ver_value " " = 0.
Proof.
  destruct (pri_and_ver_values_read_leniently 100 50 7 "  " " (production)"
              eq_refl eq_refl ltac:(unfold int_min, int_max; lia)
              ltac:(unfold api_resource_version_modulus; lia))
    as (H1 & _ & H3 & _).
  destruct (pri_and_ver_values_read_leniently 100 50 7 " " ";"
              eq_refl eq_refl ltac:(unfold int_min, int_max; lia)
              ltac:(unfold api_resource_version_modulus; lia))
    as (_ & H2 & _ & H4).
  exact (conj H1 (conj H2 (conj H3 H4))).
Defined.

End ParseValueFacts.

(** ** Advertising and resolving together *)

Module AdvertiseResolveFacts.
Import Stream ApiVersion Nmos StreamFacts ApiVersionFacts NmosFacts.
Import AdvertiseFacts ResolveFacts.





End AdvertiseResolveFacts.

(** ** Candidates that leave TXT records out *)

Module ResolveDefaultFacts.
Import Stream ApiVersion Nmos StreamFacts ApiVersionFacts NmosFacts ResolveFacts.

Lemma parse_txt_record_absent {T : Type} (records : Mdns.structured_txt_records)
    (key : string) (parse : string -> T) (d : T) :
  (forall r, In r records -> String.eqb (fst r) key = false) ->
  Mdns.parse_txt_record records key parse d = d.
Proof.
  intros H. unfold Mdns.parse_txt_record.
  destruct (find (fun r => String.eqb (fst r) key) records) as [r|] eqn:E;
    [|reflexivity].
  apply find_some in E. destruct E as [Hin He].
  rewrite (H r Hin) in He. discriminate.
Qed.

(** X22.  A candidate whose TXT records hold none of api_proto, api_ver
    and pri is taken with the defaults: http, the unspecified version set
    and no_priority.  It is rejected exactly when the unspecified set
    shares no version with the required one, or the service is not the
    node's and no_priority is outside the band; what it adds carries
    no_priority and a version of the unspecified set. *)
Theorem candidate_without_records_gets_defaults
    (no_priority : service_priority) (unspecified : version_set)
    (service : service_type) (api_ver : version_set)
    (priorities : service_priority * service_priority)
    (resolved : Mdns.resolve_result) :
  (forall r,
     In r (Mdns.parse_txt_records (Mdns.resolved_txt_records resolved)) ->
     String.eqb (fst r) txt_record_keys.api_proto = false
     /\ String.eqb (fst r) txt_record_keys.api_ver = false
     /\ String.eqb (fst r) txt_record_keys.pri = false) ->
  rejected no_priority unspecified service api_ver priorities resolved
  = negb (existsb (fun v => set_mem v api_ver) unspecified)
    || (negb (String.eqb service service_types.node)
        && negb ((fst priorities <=? no_priority) && (no_priority <=? snd priorities)))
  /\ forall x,
       In x (resolve_handler no_priority unspecified service api_ver priorities
               resolved [])
       -> snd (fst x) = no_priority
          /\ In (fst (fst x)) unspecified /\ In (fst (fst x)) api_ver
          /\ Uri.scheme (snd x) = "http"%string.
Proof.
  intros Hkeys.
  set (records := Mdns.parse_txt_records (Mdns.resolved_txt_records resolved)) in *.
  assert (Hproto : parse_api_proto_record records = service_protocols.http).
  { apply parse_txt_record_absent. intros r Hr. apply (Hkeys r Hr). }
  assert (Hvers : parse_api_ver_record unspecified records = unspecified).
  { apply parse_txt_record_absent. intros r Hr. apply (Hkeys r Hr). }
  assert (Hpri : parse_pri_record no_priority records = no_priority).
  { apply parse_txt_record_absent. intros r Hr. apply (Hkeys r Hr). }
  split.
  - unfold rejected. fold records. rewrite Hproto, Hvers, Hpri. reflexivity.
  - intros x Hx. apply In_resolve_handler in Hx. fold records in Hx.
    destruct Hx as (_ & ver & ip & Hfind & _ & ->).
    rewrite Hvers in Hfind. rewrite Hpri.
    apply find_first_of_common in Hfind. destruct Hfind as [H1 H2].
    cbn [fst snd Uri.scheme]. auto.
Qed.

Lemma candidate_without_records_gets_defaults_witness :
  let resolved := Mdns.mk_resolve_result "node" 3212 [] ["10.0.0.1"%string] in
  rejected 100 [v1_0] service_types.node [v1_0; v1_3] (0, 99) resolved = false
  /\ rejected 100 [v1_0] service_types.query [v1_0; v1_3] (0, 99) resolved = true.
Proof.
  intros resolved. split.
  - rewrite (proj1 (candidate_without_records_gets_defaults 100 [v1_0]
                      service_types.node [v1_0; v1_3] (0, 99) resolved
                      ltac:(intros r [])) ).
    reflexivity.
  - rewrite (proj1 (candidate_without_records_gets_defaults 100 [v1_0]
                      service_types.query [v1_0; v1_3] (0, 99) resolved
                      ltac:(intros r [])) ).
    reflexivity.
Defined.

End ResolveDefaultFacts.
